(** * premium-download: the inspect/download server (src/server.js)

    A shallow embedding of the primary (rate-limited, validated) server:
    the subprocess runner [runYtDlp], the temp-directory sweeper
    [cleanupTempFiles], the URL check [isValidYouTubeUrl], the two route
    handlers and [formatBytes], followed by the properties the
    specification states about them.

    Conventions of the embedding.
    - A JavaScript number is the rational it denotes ([Q]); heights, exit
      codes and timestamps, which the program only compares, subtracts and
      prints, are integers ([Z]).  Division by 1024 only moves the exponent
      of a double, so [bytes / 1024] is exact on rationals as it is on
      doubles.
    - [undefined] and [null] are both [None]: the program never tells them
      apart (it only tests truthiness, [===] against a string literal and
      [Array.prototype.includes] against number literals).
    - Strings are byte strings; the patterns the program searches for are
      ASCII, and case-insensitive matching of ASCII letters never relates
      them to a non-ASCII character. *)

From Stdlib Require Import ZArith QArith Qround Qabs Qpower String Ascii List.
From Stdlib Require Import DecimalString Sorted Permutation Lia Lqa.
From stdpp Require Import gmap strings.

Open Scope string_scope.
Open Scope Z_scope.

(** ** JavaScript primitives *)

(** [ToBoolean]: which values count as true in [!x], [x || y], [x && y],
    [x ? a : b]. *)
Class ToBoolean (A : Type) := truthy : A -> bool.

#[export] Instance Z_ToBoolean : ToBoolean Z := fun n => negb (n =? 0).
#[export] Instance Q_ToBoolean : ToBoolean Q := fun x => negb (Qeq_bool x 0).
#[export] Instance string_ToBoolean : ToBoolean string :=
  fun s => negb (String.eqb s "").
#[export] Instance nullable_ToBoolean {A} `{ToBoolean A} : ToBoolean (option A) :=
  fun o => match o with Some a => truthy a | None => false end.

(** [a || b] *)
Definition js_or {A} `{ToBoolean A} (a b : A) : A :=
  if truthy a then a else b.

(** [v === "lit"] for a nullable string. *)
Definition strict_eq (v : option string) (lit : string) : bool :=
  match v with Some s => String.eqb s lit | None => false end.

(** [[...].includes(v)] for a nullable number. *)
Definition includes (l : list Z) (v : option Z) : bool :=
  match v with Some h => existsb (Z.eqb h) l | None => false end.

(** Number-to-string of an integer, as in a template literal. *)
Definition digits (n : Z) : string := NilZero.string_of_int (Z.to_int n).

(** [x.toFixed(2)]: the integer [n] nearest to [100 x], the larger one on
    a tie, printed with a point before its last two digits.  (From 10^21
    on JavaScript prints an exponent instead; byte counts stay far below.) *)
Definition toFixed2 (x : Q) : string :=
  let s := if Qle_bool 0 x then "" else "-" in
  let n := Qfloor (Qabs x * 100 + (1 # 2)) in
  let b := digits (n mod 100) in
  s +:+ digits (n / 100) +:+ "." +:+ (if n mod 100 <? 10 then "0" +:+ b else b).

(** *** Case-insensitive regular expressions of literal alternatives *)

Definition lower (c : ascii) : ascii :=
  let n := nat_of_ascii c in
  if ((65 <=? n) && (n <=? 90))%nat then ascii_of_nat (n + 32) else c.

(** The pattern matches at the start of the subject. *)
Fixpoint matches_here (pat s : string) : bool :=
  match pat, s with
  | EmptyString, _ => true
  | String _ _, EmptyString => false
  | String p pat', String c s' =>
      Ascii.eqb (lower p) (lower c) && matches_here pat' s'
  end.

(** The pattern matches at some position of the subject. *)
Fixpoint matches_somewhere (pat s : string) : bool :=
  matches_here pat s ||
  match s with
  | EmptyString => false
  | String _ s' => matches_somewhere pat s'
  end.

(** [/a1|a2|.../i.test(s)] *)
Definition regex_test_i (alternatives : list string) (s : string) : bool :=
  existsb (fun pat => matches_somewhere pat s) alternatives.

(** *** [Array.prototype.sort(cmp)]

    The sort is stable (ECMAScript 2019): [a] is placed before [b] when
    [cmp a b < 0], and elements that compare equal keep their order. *)
Section Sort.
Context {A : Type} (cmp : A -> A -> Z).

Fixpoint sort_insert (x : A) (l : list A) : list A :=
  match l with
  | [] => [x]
  | y :: l' => if cmp x y <=? 0 then x :: l else y :: sort_insert x l'
  end.

Definition js_sort (l : list A) : list A := fold_right sort_insert [] l.
End Sort.

(** ** [formatBytes] *)

Definition units : list string := ["B"; "KB"; "MB"; "GB"].

(** The [while] loop; it runs at most [length units - 1] times, so
    [length units] rounds of fuel are enough for it to exit (lemma
    [formatBytes_loop_exits]). *)
Fixpoint formatBytes_loop (fuel : nat) (bytes : Q) (i : nat) : Q * nat :=
  match fuel with
  | O => (bytes, i)
  | S fuel' =>
      if Qle_bool 1024 bytes && (i <? length units - 1)%nat
      then formatBytes_loop fuel' (bytes / 1024) (S i)
      else (bytes, i)
  end.

Definition formatBytes (bytes : option Q) : option string :=
  match bytes with
  | None => None
  | Some b =>
      if negb (truthy b) then None
      else
        let '(b', i) := formatBytes_loop (length units) b 0 in
        Some (toFixed2 b' +:+ " " +:+ nth i units "undefined")
  end.

(** ** Format lists of the inspect endpoint *)

(** A format entry of the tool's JSON dump, with the fields the server
    reads. *)
Record format := {
  format_id : string;
  ext : string;
  vcodec : option string;
  height : option Z;
  abr : option Q;
  filesize : option Q;
  filesize_approx : option Q
}.

(** An entry of the response. *)
Record cleaned_format := {
  out_format_id : string;
  out_ext : string;
  resolution : option string;
  audio_bitrate : option Q;
  size : option string
}.

Definition keep_audio (f : format) : bool :=
  strict_eq (vcodec f) "none" && regex_test_i ["m4a"; "mp3"; "opus"] (ext f).

Definition keep_video (f : format) : bool :=
  truthy (vcodec f) && truthy (height f) &&
  includes [360; 480; 720; 1080] (height f) &&
  regex_test_i ["mp4"; "webm"] (ext f).

(** [f.height || 0] *)
Definition height_or_0 (f : format) : Z :=
  match js_or (height f) (Some 0) with Some h => h | None => 0 end.

(** [(a, b) => (b.height || 0) - (a.height || 0)] *)
Definition by_height_desc (a b : format) : Z := height_or_0 b - height_or_0 a.

(** Filtering by the requested kind, then the sort. *)
Definition select_formats (kind : string) (formats : list format) : list format :=
  let formats :=
    if String.eqb kind "yta" then List.filter keep_audio formats
    else List.filter keep_video formats in
  js_sort by_height_desc formats.

Definition clean (f : format) : cleaned_format :=
  {| out_format_id := format_id f;
     out_ext := ext f;
     resolution :=
       match height f with
       | Some h => if truthy h then Some (digits h +:+ "p") else None
       | None => None
       end;
     audio_bitrate := js_or (abr f) None;
     size := formatBytes (js_or (filesize f) (filesize_approx f)) |}.

Definition cleaned (kind : string) (formats : list format) : list cleaned_format :=
  map clean (select_formats kind formats).

(** ** The subprocess runner [runYtDlp] *)

Definition YT_DLP_TIMEOUT : Z := 1000 * 60 * 5.

(** What the event loop delivers to one invocation, in the order its
    callbacks run: chunks of the child's output, its ['close'] event (the
    exit code is [None] when a signal ended it), and the moment the timer
    set by [setTimeout] is due. *)
Inductive event :=
| stdout_data (d : string)
| stderr_data (d : string)
| close (code : option Z)
| timer_due.

Inductive settled :=
| resolved (value : string)
| rejected (message : string).

(** The variables the callbacks of one invocation share. [timer] holds the
    delay of the pending timeout, [None] once it ran or was cleared;
    [killed] records [proc.kill()]; a promise settles once. *)
Record runner := {
  out : string;
  err : string;
  timer : option Z;
  killed : bool;
  promise : option settled
}.

Definition spawn_state : runner :=
  {| out := ""; err := ""; timer := Some YT_DLP_TIMEOUT; killed := false;
     promise := None |}.

(** [resolve(v)] / [reject(e)]: only the first call has an effect. *)
Definition settle (s : settled) (r : runner) : runner :=
  {| out := out r; err := err r; timer := timer r; killed := killed r;
     promise := match promise r with Some s0 => Some s0 | None => Some s end |}.

Definition clearTimeout (r : runner) : runner :=
  {| out := out r; err := err r; timer := None; killed := killed r;
     promise := promise r |}.

(** [proc.kill()] *)
Definition kill (r : runner) : runner :=
  {| out := out r; err := err r; timer := timer r; killed := true;
     promise := promise r |}.

(** A timer runs its callback once. *)
Definition timer_ran (r : runner) : runner :=
  {| out := out r; err := err r; timer := None; killed := killed r;
     promise := promise r |}.

Definition show_code (code : option Z) : string :=
  match code with Some c => digits c | None => "null" end.

(** The four callbacks. *)
Definition on_timeout (r : runner) : runner :=
  match timer r with
  | None => r
  | Some _ => settle (rejected "Operation timed out") (kill (timer_ran r))
  end.

Definition on_stdout (d : string) (r : runner) : runner :=
  {| out := out r +:+ d; err := err r; timer := timer r; killed := killed r;
     promise := promise r |}.

Definition on_stderr (d : string) (r : runner) : runner :=
  {| out := out r; err := err r +:+ d; timer := timer r; killed := killed r;
     promise := promise r |}.

Definition on_close (code : option Z) (r : runner) : runner :=
  let r := clearTimeout r in
  if match code with Some c => c =? 0 | None => false end
  then settle (resolved (out r)) r
  else settle (rejected (js_or (err r) ("Process exited with code " +:+ show_code code))) r.

Definition deliver (r : runner) (e : event) : runner :=
  match e with
  | stdout_data d => on_stdout d r
  | stderr_data d => on_stderr d r
  | close code => on_close code r
  | timer_due => on_timeout r
  end.

(** One invocation, run over the events it receives. *)
Definition runYtDlp_callbacks (events : list event) : runner :=
  fold_left deliver events spawn_state.

(** What the child printed, by stream. *)
Fixpoint stdout_of (events : list event) : string :=
  match events with
  | [] => ""
  | stdout_data d :: es => d +:+ stdout_of es
  | _ :: es => stdout_of es
  end.

Fixpoint stderr_of (events : list event) : string :=
  match events with
  | [] => ""
  | stderr_data d :: es => d +:+ stderr_of es
  | _ :: es => stderr_of es
  end.

Definition is_data (e : event) : bool :=
  match e with stdout_data _ | stderr_data _ => true | _ => false end.

(** ** The world of a request: temp root and child processes *)

(** An entry of [os.tmpdir()], addressed by its name: modification time in
    milliseconds and the names it contains. *)
Record dirent := { mtimeMs : Z; children : list string }.

(** A child process the server spawned: its arguments and the runner that
    owned it. *)
Record child_log := { argv : list string; final : runner }.

Record world := { tmp : gmap string dirent; spawned : list child_log }.

(** How a computation ends: a value, a thrown [Error] with its message, or
    an [await] on a promise that never settles. *)
Inductive outcome (A : Type) :=
| returned (a : A)
| thrown (message : string)
| pending.
Arguments returned {A} a.
Arguments thrown {A} message.
Arguments pending {A}.

Definition io (A : Type) : Type := world -> outcome A * world.

Definition ret {A} (a : A) : io A := fun w => (returned a, w).
Definition throw {A} (message : string) : io A := fun w => (thrown message, w).
Definition bind {A B} (m : io A) (k : A -> io B) : io B :=
  fun w =>
    match m w with
    | (returned a, w') => k a w'
    | (thrown e, w') => (thrown e, w')
    | (pending, w') => (pending, w')
    end.
(** [try { m } catch (e) { h(e.message) }] *)
Definition try_catch {A} (m : io A) (h : string -> io A) : io A :=
  fun w =>
    match m w with
    | (thrown e, w') => h e w'
    | r => r
    end.

Notation "'let*' x ':=' m 'in' k" := (bind m (fun x => k))
  (at level 10, x name, m at level 100, k at level 200).
Notation "m ';;' k" := (bind m (fun _ => k))
  (at level 100, k at level 200, right associativity).

Definition with_tmp (f : gmap string dirent -> gmap string dirent) : io unit :=
  fun w => (returned tt, {| tmp := f (tmp w); spawned := spawned w |}).

(** *** File-system calls, on entries of the temp root *)

Definition enoent (call name : string) : string :=
  "ENOENT: no such file or directory, " +:+ call +:+ " '" +:+ name +:+ "'".

(** [fs.readdirSync(os.tmpdir())] *)
Definition readdirSync : io (list string) :=
  fun w => (returned (map fst (map_to_list (tmp w))), w).

(** [fs.readdirSync(dir)] for an entry of the temp root. *)
Definition readdirSync_in (name : string) : io (list string) :=
  fun w =>
    match tmp w !! name with
    | Some d => (returned (children d), w)
    | None => (thrown (enoent "scandir" name), w)
    end.

(** [fs.statSync(path)] *)
Definition statSync (name : string) : io dirent :=
  fun w =>
    match tmp w !! name with
    | Some d => (returned d, w)
    | None => (thrown (enoent "stat" name), w)
    end.

(** [fs.rmSync(path, { recursive: true, force: true })]: with [force] a
    missing entry is not an error. *)
Definition rmSync (name : string) : io unit := with_tmp (delete name).

(** [fs.mkdtempSync(prefix)] creates a directory named by the prefix and a
    suffix the system picks; [now] is the time of creation. *)
Definition mkdtempSync (prefix suffix : string) (now : Z) : io string :=
  fun w =>
    let name := prefix +:+ suffix in
    match tmp w !! name with
    | Some _ => (thrown ("EEXIST: file already exists, mkdtemp '" +:+ name +:+ "'"), w)
    | None =>
        (returned name,
         {| tmp := <[name := {| mtimeMs := now; children := [] |}]> (tmp w);
            spawned := spawned w |})
    end.

(** [path.join(a, b)] for the simple components the server joins. *)
Definition path_join (a b : string) : string := a +:+ "/" +:+ b.

(** ** The sweeper [cleanupTempFiles] *)

Definition MAX_FILE_AGE : Z := 1000 * 60 * 30.

(** [f.startsWith(p)] *)
Definition startsWith (p f : string) : bool := String.prefix p f.

Fixpoint forEach {A} (body : A -> io unit) (l : list A) : io unit :=
  match l with
  | [] => ret tt
  | x :: l' => body x ;; forEach body l'
  end.

(** The body of the [forEach]; [now] is what [Date.now()] returns while
    the entry [f] is examined. *)
Definition sweep_entry (now : Z) (f : string) : io unit :=
  let* stat := statSync f in
  if now - mtimeMs stat >? MAX_FILE_AGE then rmSync f else ret tt.

(** The filter and the [forEach] over a listing of the temp root. *)
Definition sweep (Date_now : string -> Z) (listing : list string) : io unit :=
  forEach (fun f => sweep_entry (Date_now f) f)
          (List.filter (startsWith "dl-") listing).

Definition cleanupTempFiles (Date_now : string -> Z) : io unit :=
  let* listing := readdirSync in
  sweep Date_now listing.

(** ** The route handlers *)

Record isURL_options := {
  protocols : list string;
  host_whitelist : list string
}.

(** The object [JSON.parse] yields for the tool's dump. *)
Record info := {
  title : option string;
  thumbnail : option string;
  duration_string : option string;
  formats : option (list format)
}.

(** [req.query] *)
Record query := {
  q_url : option string;
  q_format_id : option string;
  q_kind : option string
}.

Inductive body :=
| failure (error : string)
| inspection (title thumbnail duration : option string)
             (formats : list cleaned_format).

Inductive response :=
| res_json (status : Z) (b : body)
| res_download (filePath fileName : string).

(** What a spawned child does: the events it causes, and what it leaves
    in the temp root. *)
Record child := {
  events : list event;
  writes : gmap string dirent -> gmap string dirent
}.

(** [await runYtDlp(args)] *)
Definition runYtDlp (args : list string) (c : child) : io string :=
  fun w =>
    let r := runYtDlp_callbacks (events c) in
    let w' := {| tmp := writes c (tmp w);
                 spawned := spawned w ++ [{| argv := args; final := r |}] |} in
    match promise r with
    | Some (resolved v) => (returned v, w')
    | Some (rejected m) => (thrown m, w')
    | None => (pending, w')
    end.

Section Handlers.
(** [validator.isURL] and [JSON.parse] are library code, and
    [os.tmpdir()] is the host's. *)
Variable isURL : string -> isURL_options -> bool.
Variable JSON_parse : string -> info + string.
Variable os_tmpdir : string.

(** A query parameter used as a string once it is known to be set. *)
Definition str (v : option string) : string := default "" v.

Definition isValidYouTubeUrl (url : string) : bool :=
  isURL url
    {| protocols := ["http"; "https"];
       host_whitelist := ["www.youtube.com"; "youtube.com"; "youtu.be"] |}.

Definition parse (s : string) : io info :=
  match JSON_parse s with inl j => ret j | inr e => throw e end.

(** [GET /api/inspect] *)
Definition inspect (q : query) (c : child) : io response :=
  try_catch
    (let url := q_url q in
     let kind := default "ytv" (q_kind q) in
     if negb (truthy url) || negb (isValidYouTubeUrl (str url))
     then ret (res_json 400 (failure "Valid YouTube URL is required"))
     else
       let* info := runYtDlp ["-J"; str url] c in
       let* json := parse info in
       let formats := default [] (formats json) in
       ret (res_json 200
              (inspection (title json) (thumbnail json) (duration_string json)
                          (cleaned kind formats))))
    (fun e => ret (res_json 500 (failure ("Failed to inspect video: " +:+ e)))).

(** [res.download(filePath, fileName, callback)]: the callback runs when
    the transfer has completed or failed. *)
Definition download_file (filePath fileName : string) (callback : io unit)
  : io response :=
  callback ;; ret (res_download filePath fileName).

(** [GET /api/download]; [suffix] and [now] are the name and the time
    the system gives the fresh directory. *)
Definition download (q : query) (suffix : string) (now : Z) (c : child)
  : io response :=
  try_catch
    (let url := q_url q in
     let format_id := q_format_id q in
     let kind := default "ytv" (q_kind q) in
     if negb (truthy url) || negb (truthy format_id) ||
        negb (isValidYouTubeUrl (str url))
     then ret (res_json 400
                 (failure "Valid YouTube URL and format_id are required"))
     else
       let* dir := mkdtempSync "dl-" suffix now in
       let tmpDir := path_join os_tmpdir dir in
       let outPath := path_join tmpDir "%(title).200B.%(ext)s" in
       let args :=
         ["-f"; str format_id;
          "--no-playlist";
          "--merge-output-format"; if String.eqb kind "yta" then "m4a" else "mp4";
          "-o"; outPath;
          str url] in
       runYtDlp args c ;;
       let* files := readdirSync_in dir in
       match files with
       | [] => throw "No file was downloaded"
       | file0 :: _ =>
           let filePath := path_join tmpDir file0 in
           let fileName := file0 in
           download_file filePath fileName (rmSync dir)
       end)
    (fun e => ret (res_json 500 (failure ("Download failed: " +:+ e)))).
End Handlers.

(** ** Vocabulary of the specification *)

(** A nullable number that is absent or zero. *)
Definition absent_or_zero_Q (x : option Q) : Prop :=
  x = None \/ exists q, x = Some q /\ (q == 0)%Q.

Definition absent_or_zero_Z (x : option Z) : Prop :=
  x = None \/ x = Some 0.

(** The byte count in the unit of index [i]. *)
Definition scaled (b : Q) (i : nat) : Q := (b / 1024 ^ Z.of_nat i)%Q.

(** The unit as the specification words it: the largest unit of the table
    whose scaled value is below 1024. *)
Definition largest_unit_below_1024 (b : Q) (i : nat) : Prop :=
  (i < length units)%nat /\ (scaled b i < 1024)%Q /\
  forall j, (j < length units)%nat -> (scaled b j < 1024)%Q -> (j <= i)%nat.

(** The unit the loop stops at: the smallest unit whose scaled value is
    below 1024, and the last unit of the table when there is none. *)
Definition unit_reached (b : Q) (i : nat) : Prop :=
  (i < length units)%nat /\
  (forall j, (j < i)%nat -> (1024 <= scaled b j)%Q) /\
  ((scaled b i < 1024)%Q \/ i = (length units - 1)%nat).

(** The rendering of a scaled count with its unit. *)
Definition rendered (b : Q) (i : nat) : string :=
  toFixed2 (scaled b i) +:+ " " +:+ nth i units "undefined".

(** [Number.MAX_SAFE_INTEGER]: up to it every integer is a double. *)
Definition MAX_SAFE_INTEGER : Z := 2 ^ 53 - 1.

Fixpoint lowercase (s : string) : string :=
  match s with
  | EmptyString => EmptyString
  | String c s' => String (lower c) (lowercase s')
  end.

(** Some alternative occurs in the subject, letter case aside. *)
Definition mentions (alternatives : list string) (s : string) : Prop :=
  exists pat pre mid post,
    In pat alternatives /\ s = pre +:+ mid +:+ post /\
    lowercase mid = lowercase pat.

(** The filters as the specification words them. *)
Definition has_video_codec (f : format) : Prop :=
  exists c, vcodec f = Some c /\ c <> "" /\ c <> "none".

Definition audio_as_specified (f : format) : Prop :=
  vcodec f = Some "none" /\ In (ext f) ["m4a"; "mp3"; "opus"].

Definition video_as_specified (f : format) : Prop :=
  has_video_codec f /\
  (exists h, height f = Some h /\ In h [360; 480; 720; 1080]) /\
  In (ext f) ["mp4"; "webm"].

(** The filters as the code applies them. *)
Definition audio_kept (f : format) : Prop :=
  vcodec f = Some "none" /\ mentions ["m4a"; "mp3"; "opus"] (ext f).

Definition video_kept (f : format) : Prop :=
  (exists c, vcodec f = Some c /\ c <> "") /\
  (exists h, height f = Some h /\ In h [360; 480; 720; 1080]) /\
  mentions ["mp4"; "webm"] (ext f).

(** Descending height, an absent height counting as 0. *)
Definition height_ge (a b : format) : Prop := height_or_0 b <= height_or_0 a.

Definition has_height (h : Z) (f : format) : bool := height_or_0 f =? h.

Definition url_accepted (isURL : string -> isURL_options -> bool)
    (q : query) : Prop :=
  exists u, q_url q = Some u /\ u <> "" /\ isValidYouTubeUrl isURL u = true.

(** What one pass over an entry does to it. *)
Definition after_sweep (Date_now : string -> Z) (examined : bool)
    (f : string) (e : option dirent) : option dirent :=
  match e with
  | Some d =>
      if examined && (Date_now f - mtimeMs d >? MAX_FILE_AGE) then None
      else Some d
  | None => None
  end.

(** The arguments of a download. *)
Definition download_args (os_tmpdir : string) (q : query) (suffix : string)
  : list string :=
  ["-f"; str (q_format_id q); "--no-playlist"; "--merge-output-format";
   if String.eqb (default "ytv" (q_kind q)) "yta" then "m4a" else "mp4";
   "-o";
   path_join (path_join os_tmpdir ("dl-" +:+ suffix)) "%(title).200B.%(ext)s";
   str (q_url q)].

(** The temp root once the directory of a download exists and the child
    has run. *)
Definition tmp_after_child (suffix : string) (now : Z) (c : child)
    (w : world) : gmap string dirent :=
  writes c (<["dl-" +:+ suffix := {| mtimeMs := now; children := [] |}]> (tmp w)).

(** ** Sample data *)

(** A URL check to run the handlers with: scheme, [://], host and [/],
    scheme and host taken from the options. *)
Definition isURL_sample (url : string) (o : isURL_options) : bool :=
  existsb (fun p =>
    existsb (fun h => String.prefix (p +:+ "://" +:+ h +:+ "/") url)
            (host_whitelist o))
    (protocols o).

(** A [JSON.parse] that accepts only the empty object. *)
Definition JSON_parse_sample (s : string) : info + string :=
  if String.eqb s "{}"
  then inl {| title := None; thumbnail := None; duration_string := None;
              formats := None |}
  else inr "Unexpected token in JSON".

Definition sample_query : query :=
  {| q_url := Some "https://youtu.be/abc"; q_format_id := Some "18";
     q_kind := None |}.

Definition empty_world : world := {| tmp := ∅; spawned := [] |}.

(** A child that prints nothing, writes nothing and exits with status 0. *)
Definition silent_child : child :=
  {| events := [close (Some 0)]; writes := fun t => t |}.

(** A child that is still running when the timer is due. *)
Definition stuck_child : child :=
  {| events := [stdout_data "[download]"; timer_due; close None];
     writes := fun t => t |}.

Definition mk_format (id e : string) (v : option string) (h : option Z) : format :=
  {| format_id := id; ext := e; vcodec := v; height := h; abr := None;
     filesize := None; filesize_approx := None |}.

Definition audio_139 : format := mk_format "139" "m4a" (Some "none") None.
Definition audio_140 : format := mk_format "140" "m4a" (Some "none") (Some 720).
Definition audio_dash : format := mk_format "141" "m4a_dash" (Some "none") None.
Definition video_dash : format := mk_format "22" "mp4_dash" (Some "avc1") (Some 720).
Definition video_none : format := mk_format "18" "mp4" (Some "none") (Some 360).
Definition video_360 : format := mk_format "18" "mp4" (Some "avc1") (Some 360).
Definition video_1080 : format := mk_format "137" "webm" (Some "vp9") (Some 1080).

Definition sized_720 : format :=
  {| format_id := "22"; ext := "mp4"; vcodec := Some "avc1"; height := Some 720;
     abr := None; filesize := None; filesize_approx := Some 1536%Q |}.

Definition old_dir_world : world :=
  {| tmp := {[ "dl-old" := {| mtimeMs := 0; children := [] |} ]}; spawned := [] |}.

Definition three_entries : world :=
  {| tmp := <["dl-old" := {| mtimeMs := 0; children := [] |}]>
            (<["dl-new" := {| mtimeMs := 1000000; children := ["a.mp4"] |}]>
             {[ "systemd-private" := {| mtimeMs := 0; children := [] |} ]});
     spawned := [] |}.

(** ** The draft endpoints kept in the source file *)

(** The filters of the earlier [/api/inspect] drafts: fewer extensions and
    heights, and no sort. *)
Definition draft_keep_audio (f : format) : bool :=
  strict_eq (vcodec f) "none" && regex_test_i ["m4a"; "mp3"] (ext f).

Definition draft_keep_video (f : format) : bool :=
  truthy (vcodec f) && truthy (height f) &&
  includes [360; 480; 720] (height f) &&
  regex_test_i ["mp4"] (ext f).

Definition draft_select_formats (kind : option string) (formats : list format)
  : list format :=
  if strict_eq kind "yta" then List.filter draft_keep_audio formats
  else List.filter draft_keep_video formats.

(** ** More vocabulary *)

(** The events hold a ['close'] or a due timer. *)
Definition settles (events : list event) : bool :=
  existsb (fun e => negb (is_data e)) events.

(** A child that exits with status 0 after printing the empty object. *)
Definition empty_dump_child : child :=
  {| events := [stdout_data "{"; stdout_data "}"; close (Some 0)];
     writes := fun t => t |}.

(** A child that prints garbage and exits with status 0. *)
Definition garbage_child : child :=
  {| events := [stdout_data "<html>"; close (Some 0)]; writes := fun t => t |}.

(** A child that leaves one file in the directory of the download. *)
Definition one_file_child : child :=
  {| events := [stdout_data "[download] 100%"; close (Some 0)];
     writes := <["dl-x7Kq2a" := {| mtimeMs := 10; children := ["Title.mp4"] |}]> |}.

(** A child that fails. *)
Definition failing_child : child :=
  {| events := [stderr_data "ERROR: Video unavailable"; close (Some 1)];
     writes := fun t => t |}.

Definition no_format_query : query :=
  {| q_url := Some "https://youtu.be/abc"; q_format_id := None; q_kind := None |}.

(** ** Vocabulary of the revision *)

(** The entries that pass the filter of a kind, in the order of the
    tool's list. *)
Definition kept_formats (kind : string) (formats : list format) : list format :=
  List.filter (if String.eqb kind "yta" then keep_audio else keep_video) formats.

Definition is_close (e : event) : bool :=
  match e with close _ => true | _ => false end.

(** The child has ended, as far as the server can tell: its ['close']
    event was delivered. *)
Definition child_closed (events : list event) : bool := existsb is_close events.

(** A child that goes on printing after the timer was due and never
    closes. *)
Definition surviving_child : child :=
  {| events := [stdout_data "a"; timer_due; stdout_data "still"; stdout_data "alive"];
     writes := fun t => t |}.

(** ** Query parameters as Express parses them *)

(** A value of [req.query]: missing, a string, or an array of strings
    when the parameter is given more than once. *)
Inductive param :=
| absent
| single (s : string)
| repeated (l : list string).

Record raw_query := {
  r_url : param;
  r_format_id : option string;
  r_kind : option string
}.

(** [!p]: an array counts as true, whatever it holds. *)
Definition param_missing (p : param) : bool :=
  match p with
  | absent => true
  | single s => negb (truthy s)
  | repeated _ => false
  end.

Definition param_string (p : param) : option string :=
  match p with single s => Some s | _ => None end.

(** The query of a request whose [url] is not an array. *)
Definition to_query (rq : raw_query) : query :=
  {| q_url := param_string (r_url rq); q_format_id := r_format_id rq;
     q_kind := r_kind rq |}.

Section Requests.
(** As for the handlers above; [not_a_string] is the message of the
    TypeError with which [validator.isURL] refuses an argument that is not
    a string. *)
Variable isURL : string -> isURL_options -> bool.
Variable JSON_parse : string -> info + string.
Variable os_tmpdir : string.
Variable not_a_string : string.

(** [isValidYouTubeUrl(url)] on a query parameter. *)
Definition isValidYouTubeUrl_param (url : param) : io bool :=
  match url with
  | single s => ret (isValidYouTubeUrl isURL s)
  | _ => throw not_a_string
  end.

(** [GET /api/inspect], for every shape of the [url] parameter. *)
Definition inspect_request (rq : raw_query) (c : child) : io response :=
  try_catch
    (let url := r_url rq in
     let kind := default "ytv" (r_kind rq) in
     let* invalid :=
       (if param_missing url then ret true
        else let* valid := isValidYouTubeUrl_param url in ret (negb valid)) in
     if (invalid : bool)
     then ret (res_json 400 (failure "Valid YouTube URL is required"))
     else
       let* info := runYtDlp ["-J"; str (param_string url)] c in
       let* json := parse JSON_parse info in
       let formats := default [] (formats json) in
       ret (res_json 200
              (inspection (title json) (thumbnail json) (duration_string json)
                          (cleaned kind formats))))
    (fun e => ret (res_json 500 (failure ("Failed to inspect video: " +:+ e)))).

(** [GET /api/download], for every shape of the [url] parameter. *)
Definition download_request (rq : raw_query) (suffix : string) (now : Z)
    (c : child) : io response :=
  try_catch
    (let url := r_url rq in
     let format_id := r_format_id rq in
     let kind := default "ytv" (r_kind rq) in
     let* invalid :=
       (if param_missing url || negb (truthy format_id) then ret true
        else let* valid := isValidYouTubeUrl_param url in ret (negb valid)) in
     if (invalid : bool)
     then ret (res_json 400
                 (failure "Valid YouTube URL and format_id are required"))
     else
       let* dir := mkdtempSync "dl-" suffix now in
       let tmpDir := path_join os_tmpdir dir in
       let outPath := path_join tmpDir "%(title).200B.%(ext)s" in
       let args :=
         ["-f"; str format_id;
          "--no-playlist";
          "--merge-output-format"; if String.eqb kind "yta" then "m4a" else "mp4";
          "-o"; outPath;
          str (param_string url)] in
       runYtDlp args c ;;
       let* files := readdirSync_in dir in
       match files with
       | [] => throw "No file was downloaded"
       | file0 :: _ =>
           let filePath := path_join tmpDir file0 in
           let fileName := file0 in
           download_file filePath fileName (rmSync dir)
       end)
    (fun e => ret (res_json 500 (failure ("Download failed: " +:+ e)))).
End Requests.

(** ** URLs on the allowed hosts *)










(** * Properties *)

(** Unfolds [ToBoolean] down to the test on the value. *)
Ltac unfold_truthy :=
  repeat progress unfold truthy, nullable_ToBoolean, string_ToBoolean,
    Z_ToBoolean, Q_ToBoolean in *.

(** ** [formatBytes] *)

(** The rendering depends on the number, not on the fraction that
    denotes it. *)
Lemma toFixed2_comp (x y : Q) : (x == y)%Q -> toFixed2 x = toFixed2 y.
Proof.
  intros E. unfold toFixed2.
  rewrite (Qleb_comp 0%Q 0%Q (Qeq_refl 0) x y E).
  assert (Qfloor (Qabs x * 100 + (1 # 2)) = Qfloor (Qabs y * 100 + (1 # 2))) as ->.
  { apply Qfloor_comp. rewrite E. reflexivity. }
  reflexivity.
Qed.

(** [toFixed2] prints the hundredth nearest to a non-negative number,
    rounding a tie up. *)
Lemma toFixed2_rounds (x : Q) :
  (0 <= x)%Q ->
  exists n : Z,
    (inject_Z n - (1 # 2) <= x * 100 /\ x * 100 < inject_Z n + (1 # 2))%Q /\
    toFixed2 x =
      digits (n / 100) +:+ "." +:+
      (if n mod 100 <? 10 then "0" +:+ digits (n mod 100) else digits (n mod 100)).
Proof.
  intros Hx. exists (Qfloor (x * 100 + (1 # 2))). split.
  - pose proof (Qfloor_le (x * 100 + (1 # 2))) as Hlo.
    pose proof (Qlt_floor (x * 100 + (1 # 2))) as Hhi.
    rewrite inject_Z_plus in Hhi. change (inject_Z 1) with 1%Q in Hhi.
    split; lra.
  - unfold toFixed2. apply Qle_bool_iff in Hx as Hb. rewrite Hb.
    rewrite (Qfloor_comp (Qabs x * 100 + (1 # 2)) (x * 100 + (1 # 2))).
    + cbv zeta. cbn [String.append]. reflexivity.
    + rewrite Qabs_pos by exact Hx. reflexivity.
Qed.

Lemma scaled_0 (b : Q) : (scaled b 0 == b)%Q.
Proof. unfold scaled. simpl. field. Qed.

Lemma scaled_S (b : Q) (i : nat) : (scaled b (S i) == scaled b i / 1024)%Q.
Proof.
  unfold scaled. rewrite Nat2Z.inj_succ, <- Z.add_1_r.
  assert (H : ~ (1024 ^ Z.of_nat i == 0)%Q).
  { apply Qpower_not_0. discriminate. }
  rewrite Qpower_plus by discriminate.
  field. exact H.
Qed.

(** With enough fuel the loop stops because its condition is false, not
    because the fuel is spent. *)
Lemma formatBytes_loop_exits (fuel : nat) : forall (x : Q) (i : nat),
  (i + fuel >= length units - 1)%nat ->
  let '(x', i') := formatBytes_loop fuel x i in
  Qle_bool 1024 x' && (i' <? length units - 1)%nat = false.
Proof.
  induction fuel as [|fuel IH]; intros x i Hfuel; simpl.
  - apply andb_false_iff. right. apply Nat.ltb_ge. simpl in Hfuel. lia.
  - destruct (Qle_bool 1024 x && (i <? 3)%nat) eqn:Hc.
    + apply IH. simpl in *. lia.
    + exact Hc.
Qed.

(** The loop invariant: [x] is the count in the unit of index [i], and
    every smaller unit leaves at least 1024. *)
Lemma formatBytes_loop_spec (fuel : nat) : forall (b x : Q) (i : nat),
  (x == scaled b i)%Q ->
  (i + fuel >= length units - 1)%nat -> (i < length units)%nat ->
  (forall j, (j < i)%nat -> (1024 <= scaled b j)%Q) ->
  exists x' i',
    formatBytes_loop fuel x i = (x', i') /\ (x' == scaled b i')%Q /\
    unit_reached b i'.
Proof.
  induction fuel as [|fuel IH]; intros b x i Hx Hfuel Hi Hbelow; simpl.
  - exists x, i. split; [reflexivity|]. split; [exact Hx|].
    split; [exact Hi|]. split; [exact Hbelow|]. right. simpl in *. lia.
  - destruct (Qle_bool 1024 x) eqn:Hle; simpl.
    + destruct (i <? 3)%nat eqn:Hlt.
      * apply Nat.ltb_lt in Hlt. apply Qle_bool_iff in Hle.
        apply IH.
        -- rewrite scaled_S, Hx. reflexivity.
        -- simpl in *. lia.
        -- simpl. lia.
        -- intros j Hj. destruct (Nat.eq_dec j i) as [->|Hne].
           ++ rewrite <- Hx. exact Hle.
           ++ apply Hbelow. lia.
      * apply Nat.ltb_ge in Hlt. exists x, i. split; [reflexivity|].
        split; [exact Hx|]. split; [exact Hi|]. split; [exact Hbelow|].
        right. simpl in *. lia.
    + exists x, i. split; [reflexivity|]. split; [exact Hx|].
      split; [exact Hi|]. split; [exact Hbelow|]. left.
      rewrite <- Hx. apply Qnot_le_lt. intros H.
      apply Qle_bool_iff in H. congruence.
Qed.

Lemma formatBytes_positive (b : Q) :
  (0 < b)%Q ->
  exists i, unit_reached b i /\ formatBytes (Some b) = Some (rendered b i).
Proof.
  intros Hb.
  destruct (formatBytes_loop_spec (length units) b b 0) as (x' & i' & Hl & Hx & Hu).
  - symmetry. apply scaled_0.
  - simpl. lia.
  - simpl. lia.
  - intros j Hj. lia.
  - exists i'. split; [exact Hu|]. unfold formatBytes. rewrite Hl.
    assert (truthy b = true) as ->.
    { unfold truthy, Q_ToBoolean. apply negb_true_iff.
      destruct (Qeq_bool b 0) eqn:E; [|reflexivity].
      apply Qeq_bool_iff in E. rewrite E in Hb.
      exfalso. revert Hb. apply Qlt_irrefl. }
    simpl. unfold rendered. rewrite (toFixed2_comp _ _ Hx). reflexivity.
Qed.

Lemma formatBytes_null (b : option Q) :
  formatBytes b = None <-> absent_or_zero_Q b.
Proof.
  unfold formatBytes, absent_or_zero_Q. destruct b as [q|].
  - unfold truthy, Q_ToBoolean. rewrite negb_involutive.
    destruct (Qeq_bool q 0) eqn:E.
    + split; [|reflexivity]. intros _. right. exists q. split; [reflexivity|].
      apply Qeq_bool_iff. exact E.
    + destruct (formatBytes_loop (length units) q 0) as [x i].
      split; [discriminate|]. intros [H|(q' & H & Hz)]; [discriminate|].
      injection H as <-. apply Qeq_bool_iff in Hz. congruence.
  - split; [|reflexivity]. intros _. left. reflexivity.
Qed.

(** C3, as the specification words it, fails: for 2048 bytes the largest
    unit of the table whose scaled value is below 1024 is GB, while
    [formatBytes] answers in KB; and from 2^40 bytes on no unit of the
    table brings the value below 1024, while [formatBytes] still answers,
    in GB. *)
Lemma formatBytes_not_largest_unit :
  (formatBytes (Some 2048%Q) = Some "2.00 KB" /\
   forall i, largest_unit_below_1024 2048 i ->
             formatBytes (Some 2048%Q) <> Some (rendered 2048 i)) /\
  (formatBytes (Some (inject_Z (2 ^ 40))) = Some "1024.00 GB" /\
   forall i, ~ largest_unit_below_1024 (inject_Z (2 ^ 40)) i).
Proof.
  split; split.
  - vm_compute. reflexivity.
  - intros i (Hi & _ & Hmax).
    assert (3 <= i)%nat as H3.
    { apply Hmax; [simpl; lia|]. reflexivity. }
    simpl in Hi. assert (i = 3%nat) as -> by lia.
    vm_compute. discriminate.
  - vm_compute. reflexivity.
  - intros i (Hi & Hlt & _). simpl in Hi.
    do 4 (destruct i as [|i]; [vm_compute in Hlt; discriminate|]). lia.
Qed.

(** C3, amended: [formatBytes] returns null exactly for a null or zero
    byte count (so 0 gives null); 1024, 1048576 and 1073741824 give
    1.00 KB, 1.00 MB and 1.00 GB; and every positive byte count is scaled
    to the smallest unit of B, KB, MB, GB whose scaled value is below
    1024, or to GB when there is none, and rendered with two decimals. *)
Theorem formatBytes_units :
  (forall b, formatBytes b = None <-> absent_or_zero_Q b) /\
  formatBytes (Some 0%Q) = None /\
  formatBytes (Some 1024%Q) = Some "1.00 KB" /\
  formatBytes (Some 1048576%Q) = Some "1.00 MB" /\
  formatBytes (Some 1073741824%Q) = Some "1.00 GB" /\
  forall n : Z, 0 < n <= MAX_SAFE_INTEGER ->
    exists i, unit_reached (inject_Z n) i /\
              formatBytes (Some (inject_Z n)) = Some (rendered (inject_Z n) i).
Proof.
  split; [exact formatBytes_null|].
  repeat (split; [vm_compute; reflexivity|]).
  intros n [Hn _]. apply formatBytes_positive.
  change 0%Q with (inject_Z 0). rewrite <- Zlt_Qlt. exact Hn.
Qed.

Lemma formatBytes_units_witness :
  exists i, unit_reached (inject_Z 1536) i /\
            formatBytes (Some (inject_Z 1536)) = Some (rendered (inject_Z 1536) i).
Proof.
  apply (proj2 (proj2 (proj2 (proj2 (proj2 formatBytes_units)))) 1536).
  unfold MAX_SAFE_INTEGER. lia.
Defined.

(** ** Regular expressions *)

Lemma matches_here_spec (pat : string) : forall s,
  matches_here pat s = true <->
  exists mid post, s = mid +:+ post /\ lowercase mid = lowercase pat.
Proof.
  induction pat as [|p pat IH]; intros s; simpl.
  - split; [|reflexivity]. intros _. exists "", s. split; reflexivity.
  - destruct s as [|c s].
    + split; [discriminate|]. intros (mid & post & Hs & Hm).
      destruct mid; simpl in *; discriminate.
    + rewrite andb_true_iff, Ascii.eqb_eq, IH. split.
      * intros (Hc & mid & post & -> & Hm). exists (String c mid), post.
        split; [reflexivity|]. simpl. congruence.
      * intros (mid & post & Hs & Hm). destruct mid as [|m mid]; [discriminate|].
        simpl in Hs, Hm. injection Hs as -> ->. injection Hm as Hc Hm.
        split; [congruence|]. exists mid, post. split; [reflexivity|exact Hm].
Qed.

Lemma matches_somewhere_spec (pat : string) : forall s,
  matches_somewhere pat s = true <->
  exists pre mid post, s = pre +:+ mid +:+ post /\ lowercase mid = lowercase pat.
Proof.
  induction s as [|c s IH]; simpl; rewrite orb_true_iff, matches_here_spec.
  - split.
    + intros [(mid & post & Hs & Hm)|H]; [|discriminate].
      exists "", mid, post. split; [exact Hs|exact Hm].
    + intros (pre & mid & post & Hs & Hm). left.
      destruct pre; [|discriminate]. exists mid, post. split; [exact Hs|exact Hm].
  - rewrite IH. split.
    + intros [(mid & post & Hs & Hm)|(pre & mid & post & Hs & Hm)].
      * exists "", mid, post. split; [exact Hs|exact Hm].
      * exists (String c pre), mid, post. split; [rewrite Hs; reflexivity|exact Hm].
    + intros (pre & mid & post & Hs & Hm). destruct pre as [|c' pre].
      * left. exists mid, post. split; [exact Hs|exact Hm].
      * right. simpl in Hs. injection Hs as -> ->.
        exists pre, mid, post. split; [reflexivity|exact Hm].
Qed.

Lemma regex_test_i_spec (alternatives : list string) (s : string) :
  regex_test_i alternatives s = true <-> mentions alternatives s.
Proof.
  unfold regex_test_i, mentions. rewrite existsb_exists. split.
  - intros (pat & Hin & Hm). apply matches_somewhere_spec in Hm.
    destruct Hm as (pre & mid & post & Hs & Hm).
    exists pat, pre, mid, post. auto.
  - intros (pat & pre & mid & post & Hin & Hs & Hm). exists pat.
    split; [exact Hin|]. apply matches_somewhere_spec. exists pre, mid, post. auto.
Qed.

(** ** Sort *)

Lemma sort_insert_perm {A} (cmp : A -> A -> Z) (x : A) (l : list A) :
  Permutation (sort_insert cmp x l) (x :: l).
Proof.
  induction l as [|y l IH]; simpl.
  - reflexivity.
  - destruct (cmp x y <=? 0).
    + reflexivity.
    + rewrite IH. apply perm_swap.
Qed.

Lemma js_sort_perm {A} (cmp : A -> A -> Z) (l : list A) :
  Permutation (js_sort cmp l) l.
Proof.
  induction l as [|x l IH]; simpl.
  - reflexivity.
  - rewrite sort_insert_perm. constructor. exact IH.
Qed.

Lemma sort_insert_sorted (x : format) (l : list format) :
  StronglySorted height_ge l ->
  StronglySorted height_ge (sort_insert by_height_desc x l).
Proof.
  intros Hs. induction Hs as [|y l Hs IH Hy]; simpl.
  - repeat constructor.
  - unfold by_height_desc at 1. destruct (_ <=? 0) eqn:Hc.
    + apply Z.leb_le in Hc. constructor; [constructor; assumption|].
      constructor.
      * unfold height_ge. lia.
      * eapply Forall_impl; [exact Hy|]. unfold height_ge. intros; lia.
    + apply Z.leb_gt in Hc. constructor; [exact IH|].
      eapply Permutation_Forall.
      * symmetry. apply sort_insert_perm.
      * constructor; [unfold height_ge; lia|exact Hy].
Qed.

Lemma js_sort_sorted (l : list format) :
  StronglySorted height_ge (js_sort by_height_desc l).
Proof.
  induction l as [|x l IH]; simpl.
  - constructor.
  - apply sort_insert_sorted. exact IH.
Qed.

(** Stability: entries of one height keep their order. *)
Lemma sort_insert_stable (h : Z) (x : format) (l : list format) :
  StronglySorted height_ge l ->
  List.filter (has_height h) (sort_insert by_height_desc x l) =
  List.filter (has_height h) (x :: l).
Proof.
  intros Hs. induction Hs as [|y l Hs IH Hy]; [reflexivity|].
  cbn [sort_insert]. unfold by_height_desc at 1.
  destruct (_ <=? 0) eqn:Hc; [reflexivity|].
  apply Z.leb_gt in Hc. cbn [List.filter] in *. rewrite IH.
  destruct (has_height h x) eqn:Hx; [|reflexivity].
  destruct (has_height h y) eqn:Hyh; [|reflexivity].
  unfold has_height in Hx, Hyh. apply Z.eqb_eq in Hx, Hyh. lia.
Qed.

Lemma js_sort_stable (h : Z) (l : list format) :
  List.filter (has_height h) (js_sort by_height_desc l) =
  List.filter (has_height h) l.
Proof.
  induction l as [|x l IH]; [reflexivity|]. simpl js_sort.
  rewrite sort_insert_stable by apply js_sort_sorted.
  cbn [List.filter]. rewrite IH. reflexivity.
Qed.

(** A list already in descending order is left as it is. *)
Lemma js_sort_sorted_id (l : list format) :
  StronglySorted height_ge l -> js_sort by_height_desc l = l.
Proof.
  intros Hs. induction Hs as [|x l Hs IH Hx]; [reflexivity|].
  simpl. rewrite IH. destruct l as [|y l]; [reflexivity|].
  simpl. unfold by_height_desc. apply Forall_inv in Hx. unfold height_ge in Hx.
  destruct (_ <=? 0) eqn:Hc; [reflexivity|]. apply Z.leb_gt in Hc. lia.
Qed.

(** ** The filters *)

Lemma truthy_string_spec (v : option string) :
  truthy v = true <-> exists c, v = Some c /\ c <> "".
Proof.
  destruct v as [c|]; unfold_truthy.
  - rewrite negb_true_iff, String.eqb_neq.
    split.
    + intros H. exists c. split; [reflexivity|exact H].
    + intros (c' & [= <-] & H). exact H.
  - split; [discriminate|]. intros (c & H & _). discriminate.
Qed.

Lemma truthy_Z_spec (v : option Z) :
  truthy v = false <-> absent_or_zero_Z v.
Proof.
  unfold absent_or_zero_Z. destruct v as [h|]; unfold_truthy.
  - rewrite negb_false_iff, Z.eqb_eq. split.
    + intros ->. right. reflexivity.
    + intros [H|[= ->]]; [discriminate|reflexivity].
  - split; [left|]; reflexivity.
Qed.

Lemma truthy_Q_spec (v : option Q) :
  truthy v = false <-> absent_or_zero_Q v.
Proof.
  unfold absent_or_zero_Q. destruct v as [q|]; unfold_truthy.
  - rewrite negb_false_iff, Qeq_bool_iff. split.
    + intros H. right. exists q. split; [reflexivity|exact H].
    + intros [H|(q' & [= <-] & H)]; [discriminate|exact H].
  - split; [left|]; reflexivity.
Qed.

Lemma allowed_height_spec (v : option Z) :
  truthy v && includes [360; 480; 720; 1080] v = true <->
  exists h, v = Some h /\ In h [360; 480; 720; 1080].
Proof.
  destruct v as [h|]; unfold_truthy; unfold includes; cbn [existsb In].
  - rewrite andb_true_iff, !orb_true_iff, !Z.eqb_eq. split.
    + intros (_ & H). exists h. split; [reflexivity|]. intuition congruence.
    + intros (h' & [= <-] & H). split.
      * apply negb_true_iff, Z.eqb_neq. intuition lia.
      * intuition congruence.
  - split; [discriminate|]. intros (h & H & _). discriminate.
Qed.

Lemma keep_audio_spec (f : format) : keep_audio f = true <-> audio_kept f.
Proof.
  unfold keep_audio, audio_kept.
  rewrite andb_true_iff, regex_test_i_spec.
  assert (strict_eq (vcodec f) "none" = true <-> vcodec f = Some "none") as ->.
  { unfold strict_eq. destruct (vcodec f) as [c|]; [|split; discriminate].
    rewrite String.eqb_eq. split; congruence. }
  reflexivity.
Qed.

Lemma keep_video_spec (f : format) : keep_video f = true <-> video_kept f.
Proof.
  unfold keep_video, video_kept.
  rewrite andb_true_iff, <- andb_assoc, andb_true_iff.
  rewrite truthy_string_spec, allowed_height_spec, regex_test_i_spec.
  tauto.
Qed.

Lemma select_formats_perm (kind : string) (formats : list format) :
  Permutation (select_formats kind formats)
    (List.filter (if String.eqb kind "yta" then keep_audio else keep_video)
                 formats).
Proof.
  unfold select_formats. rewrite js_sort_perm.
  destruct (String.eqb kind "yta"); reflexivity.
Qed.

Lemma select_formats_In (kind : string) (formats : list format) (f : format) :
  In f (select_formats kind formats) <->
  In f formats /\
  (if String.eqb kind "yta" then keep_audio else keep_video) f = true.
Proof.
  rewrite <- filter_In. split; apply Permutation_in.
  - apply select_formats_perm.
  - symmetry. apply select_formats_perm.
Qed.

(** C2, as the specification words it, fails: the extension is searched
    for the listed names rather than compared with them, so the audio
    filter keeps an entry of extension m4a_dash and the video filter one of
    extension mp4_dash; and the video filter asks for a non-empty codec
    field, which the marker none of an entry without video satisfies. *)
Lemma select_formats_not_as_specified :
  (select_formats "yta" [audio_dash] = [audio_dash] /\
   ~ audio_as_specified audio_dash) /\
  (select_formats "ytv" [video_dash] = [video_dash] /\
   ~ video_as_specified video_dash) /\
  (select_formats "ytv" [video_none] = [video_none] /\
   ~ video_as_specified video_none).
Proof.
  repeat split; try (vm_compute; reflexivity).
  - intros (_ & H). simpl in H. intuition discriminate.
  - intros (_ & _ & H). simpl in H. intuition discriminate.
  - intros ((c & Hc & _ & Hn) & _). simpl in Hc. congruence.
Qed.

(** C2, amended: with kind yta the inspect handler keeps exactly the
    entries whose codec field is none and whose extension mentions m4a,
    mp3 or opus in any letter case; with any other kind it keeps exactly
    the entries whose codec field is a non-empty string, whose height is
    360, 480, 720 or 1080 and whose extension mentions mp4 or webm, and
    the kept video entries are in descending order of height. *)
Theorem select_formats_kept (formats : list format) :
  (Permutation (select_formats "yta" formats) (List.filter keep_audio formats) /\
   forall f, In f (select_formats "yta" formats) <-> In f formats /\ audio_kept f) /\
  (forall kind, kind <> "yta" ->
     Permutation (select_formats kind formats) (List.filter keep_video formats) /\
     (forall f, In f (select_formats kind formats) <-> In f formats /\ video_kept f) /\
     StronglySorted height_ge (select_formats kind formats)).
Proof.
  split.
  - split; [apply (select_formats_perm "yta")|].
    intros f. rewrite select_formats_In, <- keep_audio_spec. reflexivity.
  - intros kind Hk. apply String.eqb_neq in Hk.
    pose proof (select_formats_perm kind formats) as Hp.
    pose proof (select_formats_In kind formats) as Hin.
    rewrite Hk in Hp, Hin. split; [exact Hp|]. split.
    + intros f. rewrite Hin, <- keep_video_spec. reflexivity.
    + apply js_sort_sorted.
Qed.

Lemma select_formats_kept_witness :
  Permutation (select_formats "ytv" [video_360; audio_139; video_1080])
              (List.filter keep_video [video_360; audio_139; video_1080]) /\
  (forall f, In f (select_formats "ytv" [video_360; audio_139; video_1080]) <->
             In f [video_360; audio_139; video_1080] /\ video_kept f) /\
  StronglySorted height_ge (select_formats "ytv" [video_360; audio_139; video_1080]).
Proof.
  apply (proj2 (select_formats_kept [video_360; audio_139; video_1080]) "ytv").
  discriminate.
Defined.

(** C9, as the specification words it, fails: the sort runs for kind yta
    as well, so two surviving audio entries change places when the later
    one carries the greater height. *)
Lemma yta_order_changed :
  map format_id (List.filter keep_audio [audio_139; audio_140]) = ["139"; "140"] /\
  map out_format_id (cleaned "yta" [audio_139; audio_140]) = ["140"; "139"].
Proof. split; vm_compute; reflexivity. Qed.

(** C9, amended: for every inspect request, with kind yta as with video,
    the surviving entries appear in the response in descending order of
    height, an absent or zero height counting as 0, and surviving entries
    of equal height keep their relative order from the tool's list; so
    when no surviving entry has a non-zero height, as for a list of plain
    audio entries, the response lists them in the order of the tool's
    list. *)
Theorem formats_order (kind : string) (formats : list format) :
  cleaned kind formats = map clean (select_formats kind formats) /\
  StronglySorted height_ge (select_formats kind formats) /\
  (forall h, List.filter (has_height h) (select_formats kind formats) =
             List.filter (has_height h) (kept_formats kind formats)) /\
  ((forall f, In f (kept_formats kind formats) -> absent_or_zero_Z (height f)) ->
   cleaned kind formats = map clean (kept_formats kind formats)).
Proof.
  assert (Hsel : select_formats kind formats =
                 js_sort by_height_desc (kept_formats kind formats)).
  { unfold select_formats, kept_formats.
    destruct (String.eqb kind "yta"); reflexivity. }
  unfold cleaned. rewrite Hsel.
  split; [reflexivity|]. split; [apply js_sort_sorted|].
  split; [intros h; apply js_sort_stable|].
  intros Hz. f_equal. apply js_sort_sorted_id.
  assert (Forall (fun f => height_or_0 f = 0) (kept_formats kind formats)) as H0.
  { apply List.Forall_forall. intros f Hf. unfold height_or_0, js_or.
    destruct (Hz f Hf) as [-> | ->]; reflexivity. }
  clear Hz Hsel. induction H0 as [|x l Hx H0 IH]; constructor.
  - exact IH.
  - eapply Forall_impl; [exact H0|]. unfold height_ge. simpl. intros; lia.
Qed.

Lemma formats_order_witness :
  cleaned "yta" [audio_139; video_360; audio_dash] =
  map clean (kept_formats "yta" [audio_139; video_360; audio_dash]).
Proof.
  apply (proj2 (proj2 (proj2 (formats_order "yta" [audio_139; video_360; audio_dash])))).
  intros f Hf. vm_compute in Hf.
  destruct Hf as [<-|[<-|[]]]; left; reflexivity.
Defined.

(** ** The cleaned entries *)

Lemma js_or_truthy {A} `{ToBoolean A} (a b : A) :
  truthy a = true -> js_or a b = a.
Proof. unfold js_or. intros ->. reflexivity. Qed.

Lemma js_or_falsy {A} `{ToBoolean A} (a b : A) :
  truthy a = false -> js_or a b = b.
Proof. unfold js_or. intros ->. reflexivity. Qed.

Lemma not_absent_truthy (v : option Q) :
  ~ absent_or_zero_Q v <-> truthy v = true.
Proof. rewrite <- truthy_Q_spec. destruct (truthy v); split; congruence. Qed.

Lemma clean_size (f : format) :
  (~ absent_or_zero_Q (filesize f) -> size (clean f) = formatBytes (filesize f)) /\
  (absent_or_zero_Q (filesize f) ->
   size (clean f) = formatBytes (filesize_approx f)) /\
  (size (clean f) = None <->
   absent_or_zero_Q (filesize f) /\ absent_or_zero_Q (filesize_approx f)).
Proof.
  cbn [clean size]. split; [|split].
  - intros H. apply not_absent_truthy in H. rewrite js_or_truthy by exact H.
    reflexivity.
  - intros H. apply truthy_Q_spec in H. rewrite js_or_falsy by exact H.
    reflexivity.
  - rewrite formatBytes_null.
    destruct (truthy (filesize f)) eqn:Hfs.
    + rewrite js_or_truthy by exact Hfs. apply not_absent_truthy in Hfs. tauto.
    + rewrite js_or_falsy by exact Hfs. apply truthy_Q_spec in Hfs. tauto.
Qed.

Lemma clean_audio_bitrate (f : format) :
  (audio_bitrate (clean f) = None <-> absent_or_zero_Q (abr f)) /\
  (~ absent_or_zero_Q (abr f) -> audio_bitrate (clean f) = abr f).
Proof.
  cbn [clean audio_bitrate]. destruct (truthy (abr f)) eqn:Hab.
  - rewrite js_or_truthy by exact Hab. split; [|reflexivity].
    apply not_absent_truthy in Hab. split; [|tauto].
    intros H. exfalso. apply Hab. left. exact H.
  - rewrite js_or_falsy by exact Hab. apply truthy_Q_spec in Hab. tauto.
Qed.

Lemma clean_resolution (f : format) :
  (resolution (clean f) = None <-> absent_or_zero_Z (height f)) /\
  (forall h, height f = Some h -> h <> 0 ->
             resolution (clean f) = Some (digits h +:+ "p")).
Proof.
  cbn [clean resolution]. unfold absent_or_zero_Z.
  destruct (height f) as [h|].
  - unfold truthy, Z_ToBoolean. destruct (Z.eqb_spec h 0) as [->|Hh]; simpl.
    + split; [tauto|]. intros h [= <-] Hn. congruence.
    + split.
      * split; [discriminate|]. intros [H|[= H]]; congruence.
      * intros h' [= <-] _. reflexivity.
  - split; [tauto|]. discriminate.
Qed.

(** C10: every entry of the inspect response comes from an entry of the
    tool's list; its size is computed from the exact filesize, and from
    filesize_approx when the exact one is absent or zero, and is null
    exactly when both are absent or zero; its audio_bitrate is null
    exactly when abr is absent or zero; its resolution is null exactly when
    height is absent or zero. *)
Theorem cleaned_fields (kind : string) (formats : list format) (c : cleaned_format) :
  In c (cleaned kind formats) ->
  exists f, In f formats /\ c = clean f /\
    (~ absent_or_zero_Q (filesize f) -> size c = formatBytes (filesize f)) /\
    (absent_or_zero_Q (filesize f) -> size c = formatBytes (filesize_approx f)) /\
    (size c = None <->
     absent_or_zero_Q (filesize f) /\ absent_or_zero_Q (filesize_approx f)) /\
    (audio_bitrate c = None <-> absent_or_zero_Q (abr f)) /\
    (~ absent_or_zero_Q (abr f) -> audio_bitrate c = abr f) /\
    (resolution c = None <-> absent_or_zero_Z (height f)) /\
    (forall h, height f = Some h -> h <> 0 ->
               resolution c = Some (digits h +:+ "p")).
Proof.
  unfold cleaned. intros Hc. apply in_map_iff in Hc as (f & <- & Hf).
  apply select_formats_In in Hf as [Hf _].
  exists f. split; [exact Hf|]. split; [reflexivity|].
  pose proof (clean_size f) as (H1 & H2 & H3).
  pose proof (clean_audio_bitrate f) as (H4 & H5).
  pose proof (clean_resolution f) as (H6 & H7).
  exact (conj H1 (conj H2 (conj H3 (conj H4 (conj H5 (conj H6 H7)))))).
Qed.

Lemma cleaned_fields_witness :
  exists f, In f [sized_720] /\ clean sized_720 = clean f /\
    (~ absent_or_zero_Q (filesize f) ->
     size (clean sized_720) = formatBytes (filesize f)) /\
    (absent_or_zero_Q (filesize f) ->
     size (clean sized_720) = formatBytes (filesize_approx f)) /\
    (size (clean sized_720) = None <->
     absent_or_zero_Q (filesize f) /\ absent_or_zero_Q (filesize_approx f)) /\
    (audio_bitrate (clean sized_720) = None <-> absent_or_zero_Q (abr f)) /\
    (~ absent_or_zero_Q (abr f) -> audio_bitrate (clean sized_720) = abr f) /\
    (resolution (clean sized_720) = None <-> absent_or_zero_Z (height f)) /\
    (forall h, height f = Some h -> h <> 0 ->
               resolution (clean sized_720) = Some (digits h +:+ "p")).
Proof.
  apply (cleaned_fields "ytv" [sized_720] (clean sized_720)).
  vm_compute. left. reflexivity.
Defined.

(** ** The subprocess runner *)

Lemma string_app_cons (c : ascii) (s t : string) :
  String c s +:+ t = String c (s +:+ t).
Proof. reflexivity. Qed.

Lemma string_app_nil_r (s : string) : s +:+ "" = s.
Proof.
  induction s as [|c s IH]; [reflexivity|].
  rewrite string_app_cons, IH. reflexivity.
Qed.

Lemma string_app_assoc (s t u : string) : (s +:+ t) +:+ u = s +:+ t +:+ u.
Proof.
  induction s as [|c s IH]; [reflexivity|].
  rewrite !string_app_cons, IH. reflexivity.
Qed.

(** Output chunks only grow the two buffers. *)
Lemma deliver_data (es : list event) : forall r,
  forallb is_data es = true ->
  fold_left deliver es r =
  {| out := out r +:+ stdout_of es; err := err r +:+ stderr_of es;
     timer := timer r; killed := killed r; promise := promise r |}.
Proof.
  induction es as [|e es IH]; intros r Hd; simpl.
  - rewrite !string_app_nil_r. destruct r; reflexivity.
  - simpl in Hd. apply andb_true_iff in Hd as [He Hd].
    rewrite IH by exact Hd.
    destruct e; try discriminate He; simpl; rewrite string_app_assoc; reflexivity.
Qed.

(** A settled promise keeps its outcome whatever is delivered later. *)
Lemma settled_stays (es : list event) : forall r s,
  promise r = Some s -> promise (fold_left deliver es r) = Some s.
Proof.
  induction es as [|e es IH]; intros r s Hs; simpl; [exact Hs|].
  apply IH. destruct e as [d|d|code|]; simpl; try exact Hs.
  - unfold on_close.
    destruct (match code with Some c => c =? 0 | None => false end);
      simpl; rewrite Hs; reflexivity.
  - unfold on_timeout. destruct (timer r); [|exact Hs].
    simpl. rewrite Hs. reflexivity.
Qed.

(** Once [proc.kill()] was called it stays recorded. *)
Lemma killed_stays (es : list event) : forall r,
  killed r = true -> killed (fold_left deliver es r) = true.
Proof.
  induction es as [|e es IH]; intros r Hk; simpl; [exact Hk|].
  apply IH. destruct e as [d|d|code|]; simpl; try exact Hk.
  - unfold on_close.
    destruct (match code with Some c => c =? 0 | None => false end); exact Hk.
  - unfold on_timeout. destruct (timer r); [reflexivity|exact Hk].
Qed.

(** The promise once the child closes before the timer is due. *)
Lemma close_first (before after : list event) (code : option Z) :
  forallb is_data before = true ->
  promise (runYtDlp_callbacks (before ++ close code :: after)) =
  Some (if match code with Some c => c =? 0 | None => false end
        then resolved (stdout_of before)
        else rejected (js_or (stderr_of before)
                             ("Process exited with code " +:+ show_code code))).
Proof.
  intros Hd. unfold runYtDlp_callbacks. rewrite fold_left_app. simpl.
  apply settled_stays. rewrite deliver_data by exact Hd.
  unfold on_close. simpl.
  destruct (match code with Some c => c =? 0 | None => false end); reflexivity.
Qed.

(** The runner once the timer is due before the child closes. *)
Lemma timer_first (before after : list event) :
  forallb is_data before = true ->
  killed (runYtDlp_callbacks (before ++ timer_due :: after)) = true /\
  promise (runYtDlp_callbacks (before ++ timer_due :: after)) =
  Some (rejected "Operation timed out").
Proof.
  intros Hd. unfold runYtDlp_callbacks. rewrite fold_left_app. simpl.
  rewrite (deliver_data before) by exact Hd. split.
  - apply killed_stays. reflexivity.
  - apply settled_stays. reflexivity.
Qed.

(** C5: when the child closes before the timer is due, the promise
    resolves with the captured stdout if the exit status is zero; if it is
    not zero, the promise rejects with the captured stderr, or, when
    stderr is empty, with a message that ends in the exit code. *)
Theorem runYtDlp_exit_before_timeout (before after : list event) (code : Z) :
  forallb is_data before = true ->
  let r := runYtDlp_callbacks (before ++ close (Some code) :: after) in
  (code = 0 -> promise r = Some (resolved (stdout_of before))) /\
  (code <> 0 -> stderr_of before <> "" ->
   promise r = Some (rejected (stderr_of before))) /\
  (code <> 0 -> stderr_of before = "" ->
   promise r = Some (rejected ("Process exited with code " +:+ digits code))).
Proof.
  intros Hd r. subst r. rewrite close_first by exact Hd.
  destruct (Z.eqb_spec code 0) as [->|Hc].
  - split; [reflexivity|]. split; intros H; congruence.
  - split; [congruence|]. unfold js_or, truthy, string_ToBoolean.
    split; intros _ He.
    + apply String.eqb_neq in He. rewrite He. reflexivity.
    + rewrite He. reflexivity.
Qed.

Lemma runYtDlp_exit_before_timeout_witness :
  let r := runYtDlp_callbacks
             ([stdout_data "{"; stderr_data "WARNING"; stdout_data "}"] ++
              close (Some 1) :: []) in
  (1 = 0 -> promise r = Some (resolved "{}")) /\
  (1 <> 0 -> "WARNING" <> "" -> promise r = Some (rejected "WARNING")) /\
  (1 <> 0 -> "WARNING" = "" ->
   promise r = Some (rejected ("Process exited with code " +:+ digits 1))).
Proof.
  apply (runYtDlp_exit_before_timeout
           [stdout_data "{"; stderr_data "WARNING"; stdout_data "}"] [] 1).
  reflexivity.
Defined.

(** ** The sweeper *)

Lemma startsWith_spec (p f : string) :
  startsWith p f = true <-> exists rest, f = p +:+ rest.
Proof.
  unfold startsWith. revert f. induction p as [|c p IH]; intros f.
  - split; [|destruct f; reflexivity]. intros _. exists f. reflexivity.
  - destruct f as [|c' f]; simpl.
    + split; [discriminate|]. intros (rest & H). discriminate.
    + destruct (ascii_dec c c') as [<-|Hne].
      * rewrite IH. split; intros (rest & H); exists rest.
        -- rewrite H. reflexivity.
        -- rewrite string_app_cons in H. congruence.
      * split; [discriminate|]. intros (rest & H).
        rewrite string_app_cons in H. congruence.
Qed.

(** The [forEach] over entries that are all present: it returns, and
    removes exactly the examined entries that are too old. *)
Lemma forEach_sweep (Date_now : string -> Z) (l : list string) : forall w,
  List.NoDup l -> (forall f, In f l -> is_Some (tmp w !! f)) ->
  exists w',
    forEach (fun f => sweep_entry (Date_now f) f) l w = (returned tt, w') /\
    spawned w' = spawned w /\
    forall f, tmp w' !! f =
              after_sweep Date_now (bool_decide (f ∈ l)) f (tmp w !! f).
Proof.
  induction l as [|x l IH]; intros w Hnd Hall.
  - exists w. split; [reflexivity|]. split; [reflexivity|].
    intros f. unfold after_sweep. simpl. destruct (tmp w !! f); reflexivity.
  - apply List.NoDup_cons_iff in Hnd as [Hx Hnd].
    destruct (Hall x (or_introl eq_refl)) as [d Hd].
    set (w1 := if Date_now x - mtimeMs d >? MAX_FILE_AGE
               then {| tmp := delete x (tmp w); spawned := spawned w |} else w).
    assert (Hstep : sweep_entry (Date_now x) x w = (returned tt, w1)).
    { unfold sweep_entry, bind, statSync. rewrite Hd. subst w1.
      destruct (_ >? _); reflexivity. }
    assert (Hother : forall f, f <> x -> tmp w1 !! f = tmp w !! f).
    { intros f Hf. subst w1. destruct (_ >? _); [|reflexivity].
      simpl. apply lookup_delete_ne. congruence. }
    destruct (IH w1 Hnd) as (w' & Hrun & Hsp & Hlook).
    { intros f Hf. rewrite Hother; [apply Hall; right; exact Hf|].
      intros ->. contradiction. }
    exists w'. split; [|split].
    + cbn [forEach]. unfold bind at 1. rewrite Hstep. exact Hrun.
    + rewrite Hsp. subst w1. destruct (_ >? _); reflexivity.
    + intros f. rewrite Hlook. destruct (decide (f = x)) as [->|Hf].
      * rewrite <- list_elem_of_In in Hx.
        rewrite (bool_decide_eq_false_2 _ Hx).
        rewrite (bool_decide_eq_true_2 (x ∈ x :: l)) by apply list_elem_of_here.
        rewrite Hd. subst w1. unfold after_sweep. simpl.
        destruct (_ >? _); simpl.
        -- rewrite lookup_delete_eq. reflexivity.
        -- rewrite Hd. reflexivity.
      * rewrite Hother by exact Hf.
        assert (bool_decide (f ∈ x :: l) = bool_decide (f ∈ l)) as ->.
        { apply bool_decide_ext. rewrite elem_of_cons. tauto. }
        reflexivity.
Qed.

(** The listing the sweeper reads names exactly the present entries,
    once each. *)
Lemma listing_spec (w : world) :
  List.NoDup (map fst (map_to_list (tmp w))) /\
  forall f, In f (map fst (map_to_list (tmp w))) <-> is_Some (tmp w !! f).
Proof.
  split.
  - apply NoDup_ListNoDup, NoDup_fst_map_to_list.
  - intros f. rewrite <- list_elem_of_In, list_elem_of_fmap. split.
    + intros ([f' d] & -> & H). apply elem_of_map_to_list in H. eauto.
    + intros [d H]. exists (f, d). split; [reflexivity|].
      apply elem_of_map_to_list. exact H.
Qed.

(** A whole sweep, entry by entry. *)
Lemma cleanupTempFiles_lookup (Date_now : string -> Z) (w : world) :
  exists w',
    cleanupTempFiles Date_now w = (returned tt, w') /\
    spawned w' = spawned w /\
    forall f, tmp w' !! f =
              after_sweep Date_now (startsWith "dl-" f) f (tmp w !! f).
Proof.
  destruct (listing_spec w) as [Hnd Hin].
  destruct (forEach_sweep Date_now
              (List.filter (startsWith "dl-") (map fst (map_to_list (tmp w)))) w)
    as (w' & Hrun & Hsp & Hlook).
  - apply List.NoDup_filter. exact Hnd.
  - intros f Hf. apply filter_In in Hf as [Hf _]. apply Hin. exact Hf.
  - exists w'. split; [exact Hrun|]. split; [exact Hsp|].
    intros f. rewrite Hlook. destruct (tmp w !! f) as [d|] eqn:Hd; [|reflexivity].
    assert (bool_decide
              (f ∈ List.filter (startsWith "dl-") (map fst (map_to_list (tmp w))))
            = startsWith "dl-" f) as ->; [|reflexivity].
    destruct (startsWith "dl-" f) eqn:Hp.
    + apply bool_decide_eq_true_2, list_elem_of_In, filter_In.
      split; [|exact Hp]. apply Hin. rewrite Hd. eauto.
    + apply bool_decide_eq_false_2. intros H.
      apply list_elem_of_In, filter_In in H as [_ H]. congruence.
Qed.

(** C8: one sweep returns, and deletes exactly the entries whose name
    starts with dl- and whose age, the current time minus the
    modification time, exceeds the retention window of 30 minutes; every
    other entry is left as it was. *)
Theorem cleanupTempFiles_deletes (Date_now : string -> Z) (w : world) :
  MAX_FILE_AGE = 30 * 60 * 1000 /\
  exists w',
    cleanupTempFiles Date_now w = (returned tt, w') /\
    spawned w' = spawned w /\
    forall f,
      (forall d, tmp w !! f = Some d ->
                 (exists rest, f = "dl-" +:+ rest) ->
                 MAX_FILE_AGE < Date_now f - mtimeMs d ->
                 tmp w' !! f = None) /\
      ((~ exists rest, f = "dl-" +:+ rest) -> tmp w' !! f = tmp w !! f) /\
      (forall d, tmp w !! f = Some d ->
                 Date_now f - mtimeMs d <= MAX_FILE_AGE ->
                 tmp w' !! f = Some d).
Proof.
  split; [reflexivity|].
  destruct (cleanupTempFiles_lookup Date_now w) as (w' & Hrun & Hsp & Hlook).
  exists w'. split; [exact Hrun|]. split; [exact Hsp|].
  intros f. rewrite Hlook. unfold after_sweep. repeat split.
  - intros d -> Hp Hage. apply startsWith_spec in Hp. rewrite Hp.
    apply Z.gtb_lt in Hage. rewrite Hage. reflexivity.
  - intros Hp. rewrite <- startsWith_spec in Hp.
    apply not_true_is_false in Hp. rewrite Hp.
    destruct (tmp w !! f); reflexivity.
  - intros d -> Hage. destruct (_ >? _) eqn:Hgt.
    + apply Z.gtb_lt in Hgt. lia.
    + rewrite andb_false_r. reflexivity.
Qed.

(** [rmSync] with [force] returns also when the entry is already gone. *)
Lemma rmSync_missing (f : string) (w : world) :
  tmp w !! f = None ->
  rmSync f w = (returned tt, {| tmp := tmp w; spawned := spawned w |}).
Proof.
  intros H. unfold rmSync, with_tmp. rewrite delete_id by exact H. reflexivity.
Qed.

(** An entry that is gone stays gone while others are swept. *)
Lemma sweep_entry_keeps_missing (now : Z) (x f : string) (w w' : world) (o : outcome unit) :
  tmp w !! f = None -> sweep_entry now x w = (o, w') -> tmp w' !! f = None.
Proof.
  intros Hf. unfold sweep_entry, bind, statSync.
  destruct (tmp w !! x) as [d|]; [|intros [= _ <-]; exact Hf].
  destruct (_ >? _).
  - unfold rmSync, with_tmp. intros [= _ <-]. simpl.
    apply lookup_delete_None. right. exact Hf.
  - intros [= _ <-]. exact Hf.
Qed.

Lemma forEach_missing (Date_now : string -> Z) (f : string) (l : list string) :
  forall w, In f l -> tmp w !! f = None ->
  exists e w', forEach (fun f => sweep_entry (Date_now f) f) l w = (thrown e, w').
Proof.
  induction l as [|x l IH]; intros w Hin Hf; [contradiction|].
  cbn [forEach]. unfold bind at 1.
  destruct (sweep_entry (Date_now x) x w) as [[[]|e|] w1] eqn:Hstep.
  - destruct Hin as [->|Hin].
    + exfalso. revert Hstep. unfold sweep_entry, bind, statSync.
      rewrite Hf. discriminate.
    + apply IH; [exact Hin|].
      eapply sweep_entry_keeps_missing; [exact Hf|exact Hstep].
  - eauto.
  - exfalso. revert Hstep. unfold sweep_entry, bind, statSync.
    destruct (tmp w !! x); [destruct (_ >? _)|]; discriminate.
Qed.

(** C7 fails on the code: when an entry with the prefix is in the listing
    but gone by the time it is examined, [statSync] throws and the sweep
    ends with that error instead of completing. *)
Theorem sweep_stat_race (Date_now : string -> Z) (listing : list string)
    (w : world) (f : string) :
  In f listing -> startsWith "dl-" f = true -> tmp w !! f = None ->
  exists e w', sweep Date_now listing w = (thrown e, w').
Proof.
  intros Hin Hp Hf. unfold sweep.
  apply (forEach_missing Date_now f); [|exact Hf].
  apply filter_In. split; [exact Hin|exact Hp].
Qed.

Lemma sweep_stat_race_witness :
  exists e w',
    sweep (fun _ => 5000000) ["dl-gone"; "dl-old"] old_dir_world = (thrown e, w').
Proof.
  apply (sweep_stat_race (fun _ => 5000000) ["dl-gone"; "dl-old"] old_dir_world
           "dl-gone").
  - left. reflexivity.
  - reflexivity.
  - reflexivity.
Defined.

(** The same run, evaluated: the error is the one of [statSync], and the
    old directory listed after the missing entry is not swept. *)
Lemma sweep_stat_race_example :
  exists w',
    sweep (fun _ => 5000000) ["dl-gone"; "dl-old"] old_dir_world =
      (thrown "ENOENT: no such file or directory, stat 'dl-gone'", w') /\
    tmp w' !! "dl-old" = Some {| mtimeMs := 0; children := [] |}.
Proof. eexists. split; [vm_compute; reflexivity|reflexivity]. Qed.

(** A sweep of three entries: only the old one with the prefix goes. *)
Lemma cleanupTempFiles_example :
  exists w',
    cleanupTempFiles (fun _ => 2000000) three_entries = (returned tt, w') /\
    tmp w' !! "dl-old" = None /\
    tmp w' !! "dl-new" = Some {| mtimeMs := 1000000; children := ["a.mp4"] |} /\
    tmp w' !! "systemd-private" = Some {| mtimeMs := 0; children := [] |}.
Proof.
  destruct (cleanupTempFiles_lookup (fun _ => 2000000) three_entries)
    as (w' & Hrun & _ & Hlook).
  exists w'. split; [exact Hrun|]. rewrite !Hlook. repeat split.
Qed.

(** ** The route handlers *)

(** Every invocation of the runner is recorded in the world. *)
Lemma runYtDlp_recorded (args : list string) (c : child) (w : world) :
  spawned (snd (runYtDlp args c w)) =
  (spawned w ++ [{| argv := args; final := runYtDlp_callbacks (events c) |}])%list.
Proof.
  unfold runYtDlp.
  destruct (promise (runYtDlp_callbacks (events c))) as [[v|m]|]; reflexivity.
Qed.

Lemma url_accepted_check (isURL : string -> isURL_options -> bool) (q : query) :
  url_accepted isURL q ->
  truthy (q_url q) = true /\ isValidYouTubeUrl isURL (str (q_url q)) = true.
Proof.
  intros (u & Hu & Hne & Hv). rewrite Hu. simpl. split; [|exact Hv].
  unfold_truthy. apply negb_true_iff, String.eqb_neq. exact Hne.
Qed.

(** On a [url] that is not an array the general handlers are the handlers
    above. *)
Lemma inspect_request_agrees
    (isURL : string -> isURL_options -> bool) (JSON_parse : string -> info + string)
    (not_a_string : string) (rq : raw_query) (c : child) (w : world) :
  (forall l, r_url rq <> repeated l) ->
  inspect_request isURL JSON_parse not_a_string rq c w =
  inspect isURL JSON_parse (to_query rq) c w.
Proof.
  intros Hr. unfold inspect_request, inspect, to_query, try_catch, bind,
    isValidYouTubeUrl_param, ret.
  cbn [q_url q_kind q_format_id].
  destruct (r_url rq) as [|s|l]; [reflexivity| |exfalso; eapply Hr; reflexivity].
  cbn [param_missing param_string].
  change (truthy (Some s)) with (truthy s). change (str (Some s)) with s.
  destruct (truthy s); [|reflexivity]. cbn [negb orb].
  destruct (isValidYouTubeUrl isURL s); reflexivity.
Qed.

Lemma download_request_agrees
    (isURL : string -> isURL_options -> bool) (os_tmpdir not_a_string : string)
    (rq : raw_query) (suffix : string) (now : Z) (c : child) (w : world) :
  (forall l, r_url rq <> repeated l) ->
  download_request isURL os_tmpdir not_a_string rq suffix now c w =
  download isURL os_tmpdir (to_query rq) suffix now c w.
Proof.
  intros Hr. unfold download_request, download, to_query, try_catch, bind,
    isValidYouTubeUrl_param, ret.
  cbn [q_url q_kind q_format_id].
  destruct (r_url rq) as [|s|l]; [reflexivity| |exfalso; eapply Hr; reflexivity].
  cbn [param_missing param_string].
  change (truthy (Some s)) with (truthy s). change (str (Some s)) with s.
  destruct (truthy s); [|reflexivity]. cbn [negb orb].
  destruct (truthy (r_format_id rq)); [|reflexivity]. cbn [negb orb].
  destruct (isValidYouTubeUrl isURL s); reflexivity.
Qed.










(** The inspect handler when the runner rejects. *)
Lemma inspect_rejected
    (isURL : string -> isURL_options -> bool) (JSON_parse : string -> info + string)
    (q : query) (c : child) (w : world) (m : string) :
  url_accepted isURL q ->
  promise (runYtDlp_callbacks (events c)) = Some (rejected m) ->
  inspect isURL JSON_parse q c w =
    (returned (res_json 500 (failure ("Failed to inspect video: " +:+ m))),
     {| tmp := writes c (tmp w);
        spawned := spawned w ++
          [{| argv := ["-J"; str (q_url q)];
              final := runYtDlp_callbacks (events c) |}] |}).
Proof.
  intros Hq Hp. apply url_accepted_check in Hq as [Ht Hv].
  unfold inspect, try_catch, bind, runYtDlp. rewrite Ht, Hv, Hp. reflexivity.
Qed.

(** The download handler when the runner rejects. *)
Lemma download_rejected
    (isURL : string -> isURL_options -> bool) (os_tmpdir : string)
    (q : query) (suffix : string) (now : Z) (c : child) (w : world) (m : string) :
  url_accepted isURL q -> truthy (q_format_id q) = true ->
  tmp w !! ("dl-" +:+ suffix) = None ->
  promise (runYtDlp_callbacks (events c)) = Some (rejected m) ->
  download isURL os_tmpdir q suffix now c w =
    (returned (res_json 500 (failure ("Download failed: " +:+ m))),
     {| tmp := tmp_after_child suffix now c w;
        spawned := spawned w ++
          [{| argv := download_args os_tmpdir q suffix;
              final := runYtDlp_callbacks (events c) |}] |}).
Proof.
  intros Hq Hf Hfresh Hp. apply url_accepted_check in Hq as [Ht Hv].
  unfold download, try_catch, bind, mkdtempSync, runYtDlp.
  rewrite Ht, Hf, Hv. cbn [negb orb]. cbv zeta. rewrite Hfresh, Hp. reflexivity.
Qed.

(** The download handler when the runner resolves. *)
Lemma download_resolved
    (isURL : string -> isURL_options -> bool) (os_tmpdir : string)
    (q : query) (suffix : string) (now : Z) (c : child) (w : world)
    (v : string) (d : dirent) :
  url_accepted isURL q -> truthy (q_format_id q) = true ->
  tmp w !! ("dl-" +:+ suffix) = None ->
  promise (runYtDlp_callbacks (events c)) = Some (resolved v) ->
  tmp_after_child suffix now c w !! ("dl-" +:+ suffix) = Some d ->
  download isURL os_tmpdir q suffix now c w =
    let log := (spawned w ++
                 [{| argv := download_args os_tmpdir q suffix;
                     final := runYtDlp_callbacks (events c) |}])%list in
    match children d with
    | [] =>
        (returned (res_json 500 (failure "Download failed: No file was downloaded")),
         {| tmp := tmp_after_child suffix now c w; spawned := log |})
    | file0 :: _ =>
        (returned (res_download
                     (path_join (path_join os_tmpdir ("dl-" +:+ suffix)) file0)
                     file0),
         {| tmp := delete ("dl-" +:+ suffix) (tmp_after_child suffix now c w);
            spawned := log |})
    end.
Proof.
  intros Hq Hf Hfresh Hp Hd. apply url_accepted_check in Hq as [Ht Hv].
  unfold download, try_catch, bind, mkdtempSync, runYtDlp, readdirSync_in.
  rewrite Ht, Hf, Hv. cbn [negb orb]. cbv zeta. rewrite Hfresh, Hp.
  cbn [tmp spawned]. unfold tmp_after_child in Hd. rewrite Hd.
  destruct (children d); reflexivity.
Qed.

(** C6, as the specification words it, fails: the runner rejects as soon
    as the timer is due, without waiting for the child, and [proc.kill()]
    only sends it a signal; here the child prints before and after the
    timer is due and never closes, the promise is rejected and the inspect
    request answered, and the runner goes on capturing the child's
    output. *)
Lemma timeout_child_survives :
  killed (runYtDlp_callbacks (events surviving_child)) = true /\
  promise (runYtDlp_callbacks (events surviving_child)) =
    Some (rejected "Operation timed out") /\
  fst (inspect isURL_sample JSON_parse_sample sample_query surviving_child
         empty_world) =
    returned (res_json 500
      (failure "Failed to inspect video: Operation timed out")) /\
  child_closed (events surviving_child) = false /\
  out (runYtDlp_callbacks (events surviving_child)) = "astillalive".
Proof. repeat split; vm_compute; reflexivity. Qed.

(** C6, amended: when the timer is due before the child closes, the
    runner calls [proc.kill()] on the child and rejects at once with the
    error of the timeout, whatever is delivered afterwards and whether or
    not the child ever closes; the inspect and the download request then
    fail with status 500 and that error, and the one child they spawned is
    the one that was signalled. *)
Theorem runYtDlp_timeout (before after : list event) :
  forallb is_data before = true ->
  let r := runYtDlp_callbacks (before ++ timer_due :: after) in
  killed r = true /\
  promise r = Some (rejected "Operation timed out") /\
  forall (isURL : string -> isURL_options -> bool)
         (JSON_parse : string -> info + string) (os_tmpdir : string)
         (q : query) (wr : gmap string dirent -> gmap string dirent) (w : world),
    url_accepted isURL q ->
    let c := {| events := before ++ timer_due :: after; writes := wr |} in
    (exists w',
       inspect isURL JSON_parse q c w =
         (returned (res_json 500
            (failure "Failed to inspect video: Operation timed out")), w') /\
       spawned w' =
         (spawned w ++ [{| argv := ["-J"; str (q_url q)]; final := r |}])%list) /\
    (forall (suffix : string) (now : Z),
       truthy (q_format_id q) = true ->
       tmp w !! ("dl-" +:+ suffix) = None ->
       exists w',
         download isURL os_tmpdir q suffix now c w =
           (returned (res_json 500
              (failure "Download failed: Operation timed out")), w') /\
         spawned w' =
           (spawned w ++
            [{| argv := download_args os_tmpdir q suffix; final := r |}])%list).
Proof.
  intros Hd r. destruct (timer_first before after Hd) as [Hk Hp].
  split; [exact Hk|]. split; [exact Hp|].
  intros isURL JSON_parse os_tmpdir q wr w Hq c. split.
  - eexists. split; [apply (inspect_rejected _ _ _ c); [exact Hq|exact Hp]|].
    reflexivity.
  - intros suffix now Hf Hfresh.
    eexists. split; [apply (download_rejected _ _ _ _ _ c); eassumption|].
    reflexivity.
Qed.

Lemma runYtDlp_timeout_witness :
  killed (runYtDlp_callbacks (events stuck_child)) = true /\
  promise (runYtDlp_callbacks (events stuck_child)) =
    Some (rejected "Operation timed out") /\
  exists w',
    inspect isURL_sample JSON_parse_sample sample_query stuck_child empty_world =
      (returned (res_json 500
         (failure "Failed to inspect video: Operation timed out")), w').
Proof.
  pose proof (runYtDlp_timeout [stdout_data "[download]"] [close None] eq_refl)
    as (Hk & Hp & Hreq).
  split; [exact Hk|]. split; [exact Hp|].
  destruct (Hreq isURL_sample JSON_parse_sample "/tmp" sample_query
                 (fun t => t) empty_world) as [(w' & Hi & _) _].
  - exists "https://youtu.be/abc". repeat split; [discriminate].
  - exists w'. exact Hi.
Defined.

(** C1 fails on the code: when the child exits with status zero and the
    fresh directory holds no file, the request does fail with status 500,
    but the handler returns with the directory still in the temp root. *)
Theorem download_no_file_keeps_dir
    (isURL : string -> isURL_options -> bool) (os_tmpdir : string)
    (q : query) (suffix : string) (now : Z) (c : child) (w : world)
    (v : string) (d : dirent) :
  url_accepted isURL q -> truthy (q_format_id q) = true ->
  tmp w !! ("dl-" +:+ suffix) = None ->
  promise (runYtDlp_callbacks (events c)) = Some (resolved v) ->
  tmp_after_child suffix now c w !! ("dl-" +:+ suffix) = Some d ->
  children d = [] ->
  exists w',
    download isURL os_tmpdir q suffix now c w =
      (returned (res_json 500 (failure "Download failed: No file was downloaded")),
       w') /\
    tmp w' !! ("dl-" +:+ suffix) = Some d.
Proof.
  intros Hq Hf Hfresh Hp Hd Hempty.
  rewrite (download_resolved isURL os_tmpdir q suffix now c w v d) by assumption.
  rewrite Hempty. eexists. split; [reflexivity|exact Hd].
Qed.

Lemma download_no_file_keeps_dir_witness :
  exists w',
    download isURL_sample "/tmp" sample_query "x7Kq2a" 0 silent_child empty_world =
      (returned (res_json 500 (failure "Download failed: No file was downloaded")),
       w') /\
    tmp w' !! "dl-x7Kq2a" = Some {| mtimeMs := 0; children := [] |}.
Proof.
  apply (download_no_file_keeps_dir isURL_sample "/tmp" sample_query "x7Kq2a" 0
           silent_child empty_world "" {| mtimeMs := 0; children := [] |}).
  - exists "https://youtu.be/abc". repeat split; [discriminate].
  - reflexivity.
  - reflexivity.
  - reflexivity.
  - vm_compute. reflexivity.
  - reflexivity.
Defined.

(** The path that does produce a file removes the directory once the file
    has been sent. *)
Lemma download_sends_then_removes
    (isURL : string -> isURL_options -> bool) (os_tmpdir : string)
    (q : query) (suffix : string) (now : Z) (c : child) (w : world)
    (v : string) (d : dirent) (file0 : string) (rest : list string) :
  url_accepted isURL q -> truthy (q_format_id q) = true ->
  tmp w !! ("dl-" +:+ suffix) = None ->
  promise (runYtDlp_callbacks (events c)) = Some (resolved v) ->
  tmp_after_child suffix now c w !! ("dl-" +:+ suffix) = Some d ->
  children d = file0 :: rest ->
  exists w',
    download isURL os_tmpdir q suffix now c w =
      (returned (res_download
                   (path_join (path_join os_tmpdir ("dl-" +:+ suffix)) file0)
                   file0), w') /\
    tmp w' !! ("dl-" +:+ suffix) = None.
Proof.
  intros Hq Hf Hfresh Hp Hd Hfiles.
  rewrite (download_resolved isURL os_tmpdir q suffix now c w v d) by assumption.
  rewrite Hfiles. eexists. split; [reflexivity|]. apply lookup_delete_eq.
Qed.

(** A directory left behind goes with the first sweep that finds it older
    than the retention window, and not before. *)
Lemma leftover_swept (Date_now : string -> Z) (w : world) (suffix : string)
    (d : dirent) :
  tmp w !! ("dl-" +:+ suffix) = Some d ->
  exists w',
    cleanupTempFiles Date_now w = (returned tt, w') /\
    tmp w' !! ("dl-" +:+ suffix) =
    if Date_now ("dl-" +:+ suffix) - mtimeMs d >? MAX_FILE_AGE then None
    else Some d.
Proof.
  intros Hd.
  destruct (cleanupTempFiles_lookup Date_now w) as (w' & Hrun & _ & Hlook).
  exists w'. split; [exact Hrun|]. rewrite Hlook, Hd. unfold after_sweep.
  assert (startsWith "dl-" ("dl-" +:+ suffix) = true) as ->.
  { apply startsWith_spec. eauto. }
  reflexivity.
Qed.

(** ** More on the subprocess runner *)

(** The first non-output event of a run that settles. *)
Lemma settles_split (es : list event) :
  settles es = true ->
  exists before e after,
    es = (before ++ e :: after)%list /\ forallb is_data before = true /\
    is_data e = false.
Proof.
  induction es as [|e es IH]; [discriminate|]. unfold settles. simpl.
  destruct (is_data e) eqn:He; simpl.
  - intros H. destruct (IH H) as (before & e' & after & -> & Hb & He').
    exists (e :: before), e', after. simpl. rewrite He. auto.
  - intros _. exists [], e, es. auto.
Qed.

Lemma settles_promise (es : list event) :
  settles es = true -> exists s, promise (runYtDlp_callbacks es) = Some s.
Proof.
  intros H. destruct (settles_split es H) as (before & e & after & -> & Hb & He).
  destruct e as [d|d|code|]; try discriminate He.
  - rewrite close_first by exact Hb. eauto.
  - destruct (timer_first before after Hb) as [_ Hp]. eauto.
Qed.

(** Once the timer is cleared and the child was not killed, nothing that
    is delivered later kills it. *)
Lemma cleared_stays (es : list event) : forall r,
  timer r = None -> killed r = false ->
  timer (fold_left deliver es r) = None /\ killed (fold_left deliver es r) = false.
Proof.
  induction es as [|e es IH]; intros r Ht Hk; simpl; [auto|].
  apply IH; destruct e as [d|d|code|]; simpl; try assumption; try reflexivity.
  - unfold on_close.
    destruct (match code with Some c => c =? 0 | None => false end); reflexivity.
  - unfold on_timeout. rewrite Ht. exact Ht.
  - unfold on_close.
    destruct (match code with Some c => c =? 0 | None => false end); exact Hk.
  - unfold on_timeout. rewrite Ht. exact Hk.
Qed.

(** X1: a promise that has settled keeps its outcome whatever the event
    loop delivers afterwards (a late ['close'] after a timeout, a stray
    timer, more output). *)
Theorem runYtDlp_settles_once (es later : list event) (s : settled) :
  promise (runYtDlp_callbacks es) = Some s ->
  promise (runYtDlp_callbacks (es ++ later)) = Some s.
Proof.
  intros H. unfold runYtDlp_callbacks in *. rewrite fold_left_app.
  apply settled_stays. exact H.
Qed.

Lemma runYtDlp_settles_once_witness :
  promise (runYtDlp_callbacks ([stdout_data "a"; timer_due] ++ [close (Some 0)])) =
  Some (rejected "Operation timed out").
Proof.
  apply (runYtDlp_settles_once [stdout_data "a"; timer_due] [close (Some 0)]).
  reflexivity.
Defined.

(** X2: while only output arrives the promise stays pending: nothing is
    resolved or rejected, the child is not killed, the timer of five
    minutes is still set, and both streams are captured in order; an
    inspect request on such a run has no answer yet. *)
Theorem runYtDlp_pending_on_output (es : list event) :
  forallb is_data es = true ->
  let r := runYtDlp_callbacks es in
  promise r = None /\ killed r = false /\ timer r = Some (5 * 60 * 1000) /\
  out r = stdout_of es /\ err r = stderr_of es /\
  forall (isURL : string -> isURL_options -> bool)
         (JSON_parse : string -> info + string) (q : query)
         (wr : gmap string dirent -> gmap string dirent) (w : world),
    url_accepted isURL q ->
    fst (inspect isURL JSON_parse q {| events := es; writes := wr |} w) = pending.
Proof.
  intros Hd r. subst r. unfold runYtDlp_callbacks.
  rewrite deliver_data by exact Hd. simpl. repeat split.
  intros isURL JSON_parse q wr w Hq. apply url_accepted_check in Hq as [Ht Hv].
  unfold inspect, try_catch, bind, runYtDlp, runYtDlp_callbacks. simpl events.
  rewrite Ht, Hv, deliver_data by exact Hd. reflexivity.
Qed.

Lemma runYtDlp_pending_on_output_witness :
  promise (runYtDlp_callbacks [stdout_data "{"; stderr_data "WARNING"]) = None.
Proof.
  apply (runYtDlp_pending_on_output [stdout_data "{"; stderr_data "WARNING"]).
  reflexivity.
Defined.

(** X3: when the child closes before the timer is due, the timer is
    cleared and [proc.kill()] is never called, whatever is delivered
    afterwards. *)
Theorem runYtDlp_no_kill_after_close (before after : list event) (code : option Z) :
  forallb is_data before = true ->
  timer (runYtDlp_callbacks (before ++ close code :: after)) = None /\
  killed (runYtDlp_callbacks (before ++ close code :: after)) = false.
Proof.
  intros Hd. unfold runYtDlp_callbacks. rewrite fold_left_app. simpl.
  rewrite (deliver_data before) by exact Hd. apply cleared_stays.
  - unfold on_close.
    destruct (match code with Some c => c =? 0 | None => false end); reflexivity.
  - unfold on_close.
    destruct (match code with Some c => c =? 0 | None => false end); reflexivity.
Qed.

Lemma runYtDlp_no_kill_after_close_witness :
  timer (runYtDlp_callbacks ([stdout_data "x"] ++ close (Some 0) :: [timer_due])) = None /\
  killed (runYtDlp_callbacks ([stdout_data "x"] ++ close (Some 0) :: [timer_due])) = false.
Proof.
  apply (runYtDlp_no_kill_after_close [stdout_data "x"] [timer_due] (Some 0)).
  reflexivity.
Defined.

(** X4: when a signal ends the child before the timer is due, so that
    ['close'] carries no exit code, the promise rejects with the captured
    stderr, or with a message that names the code null when stderr is
    empty. *)
Theorem runYtDlp_closed_by_signal (before after : list event) :
  forallb is_data before = true ->
  let r := runYtDlp_callbacks (before ++ close None :: after) in
  (stderr_of before <> "" -> promise r = Some (rejected (stderr_of before))) /\
  (stderr_of before = "" ->
   promise r = Some (rejected "Process exited with code null")).
Proof.
  intros Hd r. subst r. rewrite close_first by exact Hd.
  unfold js_or, truthy, string_ToBoolean. split; intros He.
  - apply String.eqb_neq in He. rewrite He. reflexivity.
  - rewrite He. reflexivity.
Qed.

Lemma runYtDlp_closed_by_signal_witness :
  let r := runYtDlp_callbacks ([stdout_data "x"] ++ close None :: []) in
  ("" <> "" -> promise r = Some (rejected "")) /\
  ("" = "" -> promise r = Some (rejected "Process exited with code null")).
Proof.
  apply (runYtDlp_closed_by_signal [stdout_data "x"] []). reflexivity.
Defined.

(** ** More on [formatBytes] *)

(** The loop can stop at one unit only. *)
Lemma unit_reached_unique (b : Q) (i j : nat) :
  unit_reached b i -> unit_reached b j -> i = j.
Proof.
  intros (Hi & Hbi & Hei) (Hj & Hbj & Hej). simpl in Hi, Hj, Hei, Hej.
  destruct (Nat.lt_trichotomy i j) as [H|[H|H]]; [|exact H|]; exfalso.
  - destruct Hei as [Hlt | ->]; [|lia]. specialize (Hbj i H).
    apply (Qlt_irrefl 1024). eapply Qle_lt_trans; eassumption.
  - destruct Hej as [Hlt | ->]; [|lia]. specialize (Hbi j H).
    apply (Qlt_irrefl 1024). eapply Qle_lt_trans; eassumption.
Qed.

(** An integer prints with two zero decimals. *)
Lemma toFixed2_integer (k : Z) : 0 <= k -> toFixed2 (inject_Z k) = digits k +:+ ".00".
Proof.
  intros Hk. unfold toFixed2.
  assert (Qle_bool 0 (inject_Z k) = true) as ->.
  { apply Qle_bool_iff. change 0%Q with (inject_Z 0). rewrite <- Zle_Qle. exact Hk. }
  assert (Qfloor (Qabs (inject_Z k) * 100 + (1 # 2)) = k * 100) as ->.
  { unfold Qfloor, Qabs, inject_Z, Qmult, Qplus. simpl.
    rewrite Z.abs_eq by exact Hk. symmetry.
    apply (Z.div_unique _ 2 (k * 100) 1); lia. }
  rewrite Z.div_mul, Z.mod_mul by discriminate. reflexivity.
Qed.

Lemma scaled_multiple (k : Z) (i j : nat) :
  (j <= i)%nat ->
  (scaled (inject_Z (k * 1024 ^ Z.of_nat i)) j ==
   inject_Z (k * 1024 ^ Z.of_nat (i - j)))%Q.
Proof.
  intros Hj. unfold scaled.
  replace (Z.of_nat i) with (Z.of_nat (i - j) + Z.of_nat j) by lia.
  rewrite Z.pow_add_r by lia. rewrite Z.mul_assoc, inject_Z_mult.
  rewrite (Zpower_Qpower 1024 (Z.of_nat j)) by lia.
  assert (H : ~ (inject_Z 1024 ^ Z.of_nat j == 0)%Q).
  { apply Qpower_not_0. discriminate. }
  change (inject_Z 1024) with 1024%Q in *.
  replace (Z.of_nat (i - j + j - j)) with (Z.of_nat (i - j)) by lia.
  field. exact H.
Qed.

(** X5: a count that is a whole number [k] of some unit, with [k] from 1
    to 1023, prints as that number with two zero decimals and that unit:
    k.00 B, k.00 KB, k.00 MB or k.00 GB. *)
Theorem formatBytes_whole_units (k : Z) (i : nat) :
  1 <= k < 1024 -> (i < length units)%nat ->
  formatBytes (Some (inject_Z (k * 1024 ^ Z.of_nat i))) =
  Some (digits k +:+ ".00 " +:+ nth i units "undefined").
Proof.
  intros Hk Hi. set (b := inject_Z (k * 1024 ^ Z.of_nat i)).
  assert (Hpos : (0 < b)%Q).
  { subst b. change 0%Q with (inject_Z 0). rewrite <- Zlt_Qlt.
    apply Z.mul_pos_pos; [lia|]. apply Z.pow_pos_nonneg; lia. }
  assert (Hr : unit_reached b i).
  { split; [exact Hi|]. split.
    - intros j Hj. subst b. rewrite scaled_multiple by lia.
      change 1024%Q with (inject_Z 1024). rewrite <- Zle_Qle.
      replace (Z.of_nat (i - j)) with (Z.succ (Z.of_nat (i - j - 1))) by lia.
      rewrite Z.pow_succ_r by lia.
      assert (0 < 1024 ^ Z.of_nat (i - j - 1)) by (apply Z.pow_pos_nonneg; lia).
      nia.
    - left. subst b. rewrite scaled_multiple by lia.
      rewrite Nat.sub_diag. simpl Z.of_nat. rewrite Z.pow_0_r, Z.mul_1_r.
      change 1024%Q with (inject_Z 1024). rewrite <- Zlt_Qlt. lia. }
  destruct (formatBytes_positive b Hpos) as (i' & Hr' & ->).
  rewrite (unit_reached_unique b i' i Hr' Hr). unfold rendered.
  rewrite (toFixed2_comp _ (inject_Z k)).
  - rewrite toFixed2_integer by lia. rewrite string_app_assoc. reflexivity.
  - subst b. rewrite scaled_multiple by lia. rewrite Nat.sub_diag.
    simpl Z.of_nat. rewrite Z.pow_0_r, Z.mul_1_r. reflexivity.
Qed.

Lemma formatBytes_whole_units_witness :
  formatBytes (Some (inject_Z (5 * 1024 ^ Z.of_nat 2))) =
  Some (digits 5 +:+ ".00 " +:+ nth 2 units "undefined").
Proof.
  apply (formatBytes_whole_units 5 2); [lia|simpl; lia].
Defined.

(** X6: the number [formatBytes] prints for a positive byte count is the
    scaled count rounded to the nearest hundredth, a tie going up: it is
    off by at most half a hundredth. *)
Theorem formatBytes_accuracy (n : Z) :
  0 < n <= MAX_SAFE_INTEGER ->
  exists (i : nat) (m : Z),
    unit_reached (inject_Z n) i /\
    (inject_Z m - (1 # 2) <= scaled (inject_Z n) i * 100 /\
     scaled (inject_Z n) i * 100 < inject_Z m + (1 # 2))%Q /\
    formatBytes (Some (inject_Z n)) =
      Some ((digits (m / 100) +:+ "." +:+
             (if m mod 100 <? 10 then "0" +:+ digits (m mod 100)
              else digits (m mod 100))) +:+ " " +:+ nth i units "undefined").
Proof.
  intros [Hn _].
  assert (Hpos : (0 < inject_Z n)%Q).
  { change 0%Q with (inject_Z 0). rewrite <- Zlt_Qlt. exact Hn. }
  destruct (formatBytes_positive _ Hpos) as (i & Hr & ->).
  assert (Hs : (0 <= scaled (inject_Z n) i)%Q).
  { unfold scaled. apply Qle_shift_div_l.
    - apply Qpower_0_lt. reflexivity.
    - rewrite Qmult_0_l. apply Qlt_le_weak. exact Hpos. }
  destruct (toFixed2_rounds _ Hs) as (m & Hm & Hfix).
  exists i, m. split; [exact Hr|]. split; [exact Hm|].
  unfold rendered. rewrite Hfix. reflexivity.
Qed.

Lemma formatBytes_accuracy_witness :
  exists (i : nat) (m : Z),
    unit_reached (inject_Z 1500000) i /\
    (inject_Z m - (1 # 2) <= scaled (inject_Z 1500000) i * 100 /\
     scaled (inject_Z 1500000) i * 100 < inject_Z m + (1 # 2))%Q /\
    formatBytes (Some (inject_Z 1500000)) =
      Some ((digits (m / 100) +:+ "." +:+
             (if m mod 100 <? 10 then "0" +:+ digits (m mod 100)
              else digits (m mod 100))) +:+ " " +:+ nth i units "undefined").
Proof.
  apply (formatBytes_accuracy 1500000). unfold MAX_SAFE_INTEGER. lia.
Defined.

(** ** More on the format filters *)

Lemma lower_idem (c : ascii) : lower (lower c) = lower c.
Proof.
  destruct c as [[] [] [] [] [] [] [] []]; reflexivity.
Qed.

Lemma matches_here_case (pat : string) : forall s t,
  lowercase s = lowercase t -> matches_here pat s = matches_here pat t.
Proof.
  induction pat as [|p pat IH]; intros s t H; [reflexivity|].
  destruct s as [|c s], t as [|d t]; try discriminate H; [reflexivity|].
  simpl in H. injection H as Hc H. simpl. rewrite Hc, (IH s t H). reflexivity.
Qed.

Lemma matches_somewhere_case (pat : string) : forall s t,
  lowercase s = lowercase t ->
  matches_somewhere pat s = matches_somewhere pat t.
Proof.
  induction s as [|c s IH]; intros t H.
  - destruct t; [reflexivity|discriminate H].
  - destruct t as [|d t]; [discriminate H|].
    cbn [matches_somewhere]. rewrite (matches_here_case pat _ _ H).
    simpl in H. injection H as _ H. rewrite (IH t H). reflexivity.
Qed.

Lemma regex_test_i_case (alternatives : list string) (s t : string) :
  lowercase s = lowercase t ->
  regex_test_i alternatives s = regex_test_i alternatives t.
Proof.
  intros H. unfold regex_test_i.
  induction alternatives as [|pat l IH]; [reflexivity|].
  simpl. rewrite (matches_somewhere_case pat s t H), IH. reflexivity.
Qed.

(** X7: the letter case of the extension does not matter to either
    filter: two entries with the same codec and height whose extensions
    differ only in letter case are kept or dropped together. *)
Theorem filters_ignore_case (f g : format) :
  vcodec f = vcodec g -> height f = height g ->
  lowercase (ext f) = lowercase (ext g) ->
  keep_audio f = keep_audio g /\ keep_video f = keep_video g.
Proof.
  intros Hv Hh He. unfold keep_audio, keep_video.
  rewrite Hv, Hh, (regex_test_i_case _ _ _ He), (regex_test_i_case _ _ _ He).
  split; reflexivity.
Qed.

Lemma filters_ignore_case_witness :
  keep_audio (mk_format "140" "M4A" (Some "none") None) = keep_audio audio_139 /\
  keep_video (mk_format "140" "M4A" (Some "none") None) = keep_video audio_139.
Proof.
  apply (filters_ignore_case (mk_format "140" "M4A" (Some "none") None) audio_139);
    reflexivity.
Defined.

Lemma filter_all {A} (p : A -> bool) (l : list A) :
  Forall (fun x => p x = true) l -> List.filter p l = l.
Proof.
  induction 1 as [|x l Hx _ IH]; [reflexivity|].
  simpl. rewrite Hx, IH. reflexivity.
Qed.

(** X8: selecting from an already selected list changes nothing: the
    filter keeps every entry and the sort leaves the order. *)
Theorem select_formats_idempotent (kind : string) (formats : list format) :
  select_formats kind (select_formats kind formats) = select_formats kind formats.
Proof.
  set (p := if String.eqb kind "yta" then keep_audio else keep_video).
  assert (Hsel : forall l, select_formats kind l = js_sort by_height_desc (List.filter p l)).
  { intros l. unfold select_formats. subst p.
    destruct (String.eqb kind "yta"); reflexivity. }
  rewrite (Hsel (select_formats kind formats)).
  rewrite filter_all.
  - rewrite Hsel. apply js_sort_sorted_id, js_sort_sorted.
  - apply List.Forall_forall. intros f Hf.
    apply select_formats_In in Hf as [_ Hf]. exact Hf.
Qed.

(** X9: for a video request every entry of the response carries one of
    the four resolution labels. *)
Theorem video_resolution_labels (kind : string) (formats : list format)
    (c : cleaned_format) :
  kind <> "yta" -> In c (cleaned kind formats) ->
  In (resolution c) [Some "360p"; Some "480p"; Some "720p"; Some "1080p"].
Proof.
  intros Hk Hc. unfold cleaned in Hc. apply in_map_iff in Hc as (f & <- & Hf).
  apply select_formats_In in Hf as [_ Hf].
  apply String.eqb_neq in Hk. rewrite Hk in Hf.
  apply keep_video_spec in Hf as (_ & (h & Hh & Hin) & _).
  cbn [clean resolution]. rewrite Hh.
  simpl in Hin. destruct Hin as [<-|[<-|[<-|[<-|[]]]]]; simpl; auto.
Qed.

Lemma video_resolution_labels_witness :
  In (resolution (clean video_1080))
     [Some "360p"; Some "480p"; Some "720p"; Some "1080p"].
Proof.
  apply (video_resolution_labels "ytv" [video_360; audio_139; video_1080]
           (clean video_1080)).
  - discriminate.
  - vm_compute. left. reflexivity.
Defined.

Lemma regex_test_i_more (alts alts' : list string) (s : string) :
  (forall a, In a alts -> In a alts') ->
  regex_test_i alts s = true -> regex_test_i alts' s = true.
Proof.
  intros Hsub H. unfold regex_test_i in *.
  apply existsb_exists in H as (a & Ha & Hm). apply existsb_exists.
  exists a. split; [apply Hsub; exact Ha|exact Hm].
Qed.

Lemma draft_keep_audio_kept (f : format) :
  draft_keep_audio f = true -> keep_audio f = true.
Proof.
  unfold draft_keep_audio, keep_audio. intros H.
  apply andb_true_iff in H as [Hv He]. apply andb_true_iff. split; [exact Hv|].
  revert He. apply regex_test_i_more. simpl. tauto.
Qed.

Lemma draft_keep_video_kept (f : format) :
  draft_keep_video f = true -> keep_video f = true.
Proof.
  unfold draft_keep_video, keep_video. intros H.
  apply andb_true_iff in H as [H He]. apply andb_true_iff in H as [H Hh].
  apply andb_true_iff. split; [apply andb_true_iff; split; [exact H|]|].
  - unfold includes in *. destruct (height f) as [h|]; [|discriminate].
    cbn [existsb] in *. rewrite !orb_true_iff in *. tauto.
  - revert He. apply regex_test_i_more. simpl. tauto.
Qed.

(** X10: the primary filters accept everything the filters of the draft
    endpoints accept, for the same kind. *)
Theorem draft_formats_still_selected (kind : option string)
    (formats : list format) (f : format) :
  In f (draft_select_formats kind formats) ->
  In f (select_formats (default "ytv" kind) formats).
Proof.
  unfold draft_select_formats. intros Hf. apply select_formats_In.
  destruct kind as [k|].
  - change (default "ytv" (Some k)) with k. cbn [strict_eq] in Hf.
    destruct (String.eqb k "yta"); apply filter_In in Hf as [Hin Hf];
      (split; [exact Hin|]).
    + apply draft_keep_audio_kept. exact Hf.
    + apply draft_keep_video_kept. exact Hf.
  - change (default "ytv" None) with "ytv". cbn [strict_eq] in Hf.
    apply filter_In in Hf as [Hin Hf]. split; [exact Hin|].
    apply draft_keep_video_kept. exact Hf.
Qed.

Lemma draft_formats_still_selected_witness :
  In video_360 (select_formats (default "ytv" None) [audio_139; video_360]).
Proof.
  apply (draft_formats_still_selected None [audio_139; video_360] video_360).
  vm_compute. left. reflexivity.
Defined.

(** ** More on the sweeper *)

(** X11: a sweep is idempotent: sweeping again with the same clock
    readings returns and leaves the temp root exactly as the first sweep
    left it. *)
Theorem cleanupTempFiles_idempotent (Date_now : string -> Z) (w : world) :
  exists w',
    cleanupTempFiles Date_now w = (returned tt, w') /\
    cleanupTempFiles Date_now w' = (returned tt, w').
Proof.
  destruct (cleanupTempFiles_lookup Date_now w) as (w' & Hrun & Hsp & Hlook).
  destruct (cleanupTempFiles_lookup Date_now w') as (w'' & Hrun' & Hsp' & Hlook').
  exists w'. split; [exact Hrun|]. rewrite Hrun'. f_equal.
  destruct w' as [t' s'], w'' as [t'' s'']. simpl in *. f_equal; [|exact Hsp'].
  apply map_eq. intros f. rewrite Hlook', Hlook. unfold after_sweep.
  destruct (tmp w !! f) as [d|]; [|reflexivity].
  destruct (startsWith "dl-" f && (Date_now f - mtimeMs d >? MAX_FILE_AGE)) eqn:Hc;
    [reflexivity|]. rewrite Hc. reflexivity.
Qed.

(** X12: a directory is never swept within the runner's timeout of its
    creation: if it was modified no earlier than it was created and the
    clock reads at most [YT_DLP_TIMEOUT] past its creation, the sweep
    keeps it. *)
Theorem cleanupTempFiles_spares_running (Date_now : string -> Z) (w : world)
    (f : string) (d : dirent) (created : Z) :
  tmp w !! f = Some d -> created <= mtimeMs d ->
  Date_now f <= created + YT_DLP_TIMEOUT ->
  exists w',
    cleanupTempFiles Date_now w = (returned tt, w') /\ tmp w' !! f = Some d.
Proof.
  intros Hd Hm Hnow.
  destruct (cleanupTempFiles_lookup Date_now w) as (w' & Hrun & _ & Hlook).
  exists w'. split; [exact Hrun|]. rewrite Hlook, Hd. unfold after_sweep.
  assert ((Date_now f - mtimeMs d >? MAX_FILE_AGE) = false) as ->.
  { rewrite Z.gtb_ltb. apply Z.ltb_ge.
    unfold YT_DLP_TIMEOUT, MAX_FILE_AGE in *. lia. }
  rewrite andb_false_r. reflexivity.
Qed.

Lemma cleanupTempFiles_spares_running_witness :
  exists w',
    cleanupTempFiles (fun _ => 1200000) three_entries = (returned tt, w') /\
    tmp w' !! "dl-new" = Some {| mtimeMs := 1000000; children := ["a.mp4"] |}.
Proof.
  apply (cleanupTempFiles_spares_running (fun _ => 1200000) three_entries "dl-new"
           {| mtimeMs := 1000000; children := ["a.mp4"] |} 1000000).
  - reflexivity.
  - simpl. lia.
  - unfold YT_DLP_TIMEOUT. lia.
Defined.

(** ** More on the route handlers *)

(** X13: an inspect request with an accepted URL whose child exits with
    status zero and prints a dump that parses gets status 200 with the
    title, thumbnail and duration of the dump and its cleaned formats (none
    when the dump has no list), video being the kind when none is given;
    the child was spawned once, with -J and the URL. *)
Theorem inspect_success
    (isURL : string -> isURL_options -> bool) (JSON_parse : string -> info + string)
    (q : query) (c : child) (w : world) (before after : list event) (json : info) :
  url_accepted isURL q ->
  events c = (before ++ close (Some 0) :: after)%list ->
  forallb is_data before = true ->
  JSON_parse (stdout_of before) = inl json ->
  inspect isURL JSON_parse q c w =
    (returned (res_json 200
       (inspection (title json) (thumbnail json) (duration_string json)
          (cleaned (default "ytv" (q_kind q)) (default [] (formats json))))),
     {| tmp := writes c (tmp w);
        spawned := spawned w ++
          [{| argv := ["-J"; str (q_url q)];
              final := runYtDlp_callbacks (events c) |}] |}).
Proof.
  intros Hq He Hd Hj. apply url_accepted_check in Hq as [Ht Hv].
  unfold inspect, try_catch, bind, runYtDlp, parse. rewrite Ht, Hv.
  cbn [negb orb]. rewrite He, close_first by exact Hd. simpl.
  rewrite Hj. reflexivity.
Qed.

Lemma inspect_success_witness :
  inspect isURL_sample JSON_parse_sample sample_query empty_dump_child empty_world =
    (returned (res_json 200 (inspection None None None [])),
     {| tmp := ∅;
        spawned := [{| argv := ["-J"; "https://youtu.be/abc"];
                       final := runYtDlp_callbacks (events empty_dump_child) |}] |}).
Proof.
  apply (inspect_success isURL_sample JSON_parse_sample sample_query
           empty_dump_child empty_world [stdout_data "{"; stdout_data "}"] []
           {| title := None; thumbnail := None; duration_string := None;
              formats := None |}).
  - exists "https://youtu.be/abc". repeat split; [discriminate].
  - reflexivity.
  - reflexivity.
  - reflexivity.
Defined.

(** X14: when the child exits with status zero but its output does not
    parse, the inspect request fails with status 500 and the message of
    the parse error. *)
Theorem inspect_parse_error
    (isURL : string -> isURL_options -> bool) (JSON_parse : string -> info + string)
    (q : query) (c : child) (w : world) (before after : list event) (m : string) :
  url_accepted isURL q ->
  events c = (before ++ close (Some 0) :: after)%list ->
  forallb is_data before = true ->
  JSON_parse (stdout_of before) = inr m ->
  fst (inspect isURL JSON_parse q c w) =
    returned (res_json 500 (failure ("Failed to inspect video: " +:+ m))).
Proof.
  intros Hq He Hd Hj. apply url_accepted_check in Hq as [Ht Hv].
  unfold inspect, try_catch, bind, runYtDlp, parse. rewrite Ht, Hv.
  cbn [negb orb]. rewrite He, close_first by exact Hd. simpl.
  rewrite Hj. reflexivity.
Qed.

Lemma inspect_parse_error_witness :
  fst (inspect isURL_sample JSON_parse_sample sample_query garbage_child empty_world) =
    returned (res_json 500
      (failure ("Failed to inspect video: " +:+ "Unexpected token in JSON"))).
Proof.
  apply (inspect_parse_error isURL_sample JSON_parse_sample sample_query
           garbage_child empty_world [stdout_data "<html>"] []).
  - exists "https://youtu.be/abc". repeat split; [discriminate].
  - reflexivity.
  - reflexivity.
  - reflexivity.
Defined.

(** X15: a download request without a format_id gets status 400, even
    with an accepted URL, and nothing is created or spawned. *)
Theorem download_missing_format_id
    (isURL : string -> isURL_options -> bool) (os_tmpdir : string)
    (q : query) (suffix : string) (now : Z) (c : child) (w : world) :
  truthy (q_format_id q) = false ->
  download isURL os_tmpdir q suffix now c w =
    (returned (res_json 400
                (failure "Valid YouTube URL and format_id are required")), w).
Proof.
  intros Hf. unfold download, try_catch. rewrite Hf.
  cbn [negb]. rewrite orb_true_r. reflexivity.
Qed.

Lemma download_missing_format_id_witness :
  download isURL_sample "/tmp" no_format_query "x7Kq2a" 0 silent_child empty_world =
    (returned (res_json 400
                (failure "Valid YouTube URL and format_id are required")),
     empty_world).
Proof.
  apply (download_missing_format_id isURL_sample "/tmp" no_format_query "x7Kq2a" 0
           silent_child empty_world).
  reflexivity.
Defined.

(** X16: a download whose child exits with status zero and leaves files
    in the fresh directory sends the first file of the directory listing
    under its own name, and afterwards the directory is gone while every
    other entry of the temp root is as the child left it; the child was
    spawned once, with the arguments of the download. *)
Theorem download_success
    (isURL : string -> isURL_options -> bool) (os_tmpdir : string)
    (q : query) (suffix : string) (now : Z) (c : child) (w : world)
    (v : string) (d : dirent) (file0 : string) (rest : list string) :
  url_accepted isURL q -> truthy (q_format_id q) = true ->
  tmp w !! ("dl-" +:+ suffix) = None ->
  promise (runYtDlp_callbacks (events c)) = Some (resolved v) ->
  tmp_after_child suffix now c w !! ("dl-" +:+ suffix) = Some d ->
  children d = file0 :: rest ->
  exists w',
    download isURL os_tmpdir q suffix now c w =
      (returned (res_download
                   (path_join (path_join os_tmpdir ("dl-" +:+ suffix)) file0)
                   file0), w') /\
    tmp w' !! ("dl-" +:+ suffix) = None /\
    (forall f, f <> "dl-" +:+ suffix ->
               tmp w' !! f = tmp_after_child suffix now c w !! f) /\
    spawned w' =
      (spawned w ++
       [{| argv := download_args os_tmpdir q suffix;
           final := runYtDlp_callbacks (events c) |}])%list.
Proof.
  intros Hq Hf Hfresh Hp Hd Hfiles.
  rewrite (download_resolved isURL os_tmpdir q suffix now c w v d) by assumption.
  rewrite Hfiles. eexists. split; [reflexivity|]. simpl. split; [|split].
  - apply lookup_delete_eq.
  - intros f Hne. apply lookup_delete_ne. congruence.
  - reflexivity.
Qed.

Lemma download_success_witness :
  exists w',
    download isURL_sample "/tmp" sample_query "x7Kq2a" 0 one_file_child empty_world =
      (returned (res_download "/tmp/dl-x7Kq2a/Title.mp4" "Title.mp4"), w') /\
    tmp w' !! "dl-x7Kq2a" = None /\
    (forall f, f <> "dl-x7Kq2a" ->
               tmp w' !! f = tmp_after_child "x7Kq2a" 0 one_file_child empty_world !! f) /\
    spawned w' =
      ([] ++
       [{| argv := download_args "/tmp" sample_query "x7Kq2a";
           final := runYtDlp_callbacks (events one_file_child) |}])%list.
Proof.
  apply (download_success isURL_sample "/tmp" sample_query "x7Kq2a" 0
           one_file_child empty_world "[download] 100%"
           {| mtimeMs := 10; children := ["Title.mp4"] |} "Title.mp4" []).
  - exists "https://youtu.be/abc". repeat split; [discriminate].
  - reflexivity.
  - reflexivity.
  - reflexivity.
  - vm_compute. reflexivity.
  - reflexivity.
Defined.

(** X17: when the runner rejects a download, the request fails with
    status 500 and the runner's message, and the temp root stays as the
    child left it: the handler removes nothing, the fresh directory
    included. *)
Theorem download_runner_failure
    (isURL : string -> isURL_options -> bool) (os_tmpdir : string)
    (q : query) (suffix : string) (now : Z) (c : child) (w : world) (m : string) :
  url_accepted isURL q -> truthy (q_format_id q) = true ->
  tmp w !! ("dl-" +:+ suffix) = None ->
  promise (runYtDlp_callbacks (events c)) = Some (rejected m) ->
  exists w',
    download isURL os_tmpdir q suffix now c w =
      (returned (res_json 500 (failure ("Download failed: " +:+ m))), w') /\
    tmp w' = tmp_after_child suffix now c w.
Proof.
  intros Hq Hf Hfresh Hp.
  rewrite (download_rejected isURL os_tmpdir q suffix now c w m) by assumption.
  eexists. split; reflexivity.
Qed.

Lemma download_runner_failure_witness :
  exists w',
    download isURL_sample "/tmp" sample_query "x7Kq2a" 0 failing_child empty_world =
      (returned (res_json 500
         (failure ("Download failed: " +:+ "ERROR: Video unavailable"))), w') /\
    tmp w' = tmp_after_child "x7Kq2a" 0 failing_child empty_world.
Proof.
  apply (download_runner_failure isURL_sample "/tmp" sample_query "x7Kq2a" 0
           failing_child empty_world "ERROR: Video unavailable").
  - exists "https://youtu.be/abc". repeat split; [discriminate].
  - reflexivity.
  - reflexivity.
  - reflexivity.
Defined.

(** The inspect handler, case by case. *)
Lemma inspect_cases
    (isURL : string -> isURL_options -> bool) (JSON_parse : string -> info + string)
    (q : query) (c : child) (w : world) :
  inspect isURL JSON_parse q c w =
  if negb (truthy (q_url q)) || negb (isValidYouTubeUrl isURL (str (q_url q)))
  then (returned (res_json 400 (failure "Valid YouTube URL is required")), w)
  else
    let w1 := {| tmp := writes c (tmp w);
                 spawned := spawned w ++
                   [{| argv := ["-J"; str (q_url q)];
                       final := runYtDlp_callbacks (events c) |}] |} in
    match promise (runYtDlp_callbacks (events c)) with
    | Some (resolved v) =>
        match JSON_parse v with
        | inl json =>
            (returned (res_json 200
               (inspection (title json) (thumbnail json) (duration_string json)
                  (cleaned (default "ytv" (q_kind q)) (default [] (formats json))))),
             w1)
        | inr e =>
            (returned (res_json 500 (failure ("Failed to inspect video: " +:+ e))),
             w1)
        end
    | Some (rejected m) =>
        (returned (res_json 500 (failure ("Failed to inspect video: " +:+ m))), w1)
    | None => (pending, w1)
    end.
Proof.
  unfold inspect, try_catch, bind, runYtDlp, parse.
  destruct (negb (truthy (q_url q)) ||
            negb (isValidYouTubeUrl isURL (str (q_url q)))); [reflexivity|].
  destruct (promise (runYtDlp_callbacks (events c))) as [[v|m]|];
    try reflexivity.
  cbv zeta. destruct (JSON_parse v); reflexivity.
Qed.

(** The download handler, case by case. *)
Lemma download_cases
    (isURL : string -> isURL_options -> bool) (os_tmpdir : string)
    (q : query) (suffix : string) (now : Z) (c : child) (w : world) :
  download isURL os_tmpdir q suffix now c w =
  if negb (truthy (q_url q)) || negb (truthy (q_format_id q)) ||
     negb (isValidYouTubeUrl isURL (str (q_url q)))
  then (returned (res_json 400
                   (failure "Valid YouTube URL and format_id are required")), w)
  else
    let dir := "dl-" +:+ suffix in
    match tmp w !! dir with
    | Some _ =>
        (returned (res_json 500
           (failure ("Download failed: " +:+
                     ("EEXIST: file already exists, mkdtemp '" +:+ dir +:+ "'")))),
         w)
    | None =>
        let t1 := tmp_after_child suffix now c w in
        let log := (spawned w ++
                    [{| argv := download_args os_tmpdir q suffix;
                        final := runYtDlp_callbacks (events c) |}])%list in
        match promise (runYtDlp_callbacks (events c)) with
        | Some (resolved v) =>
            match t1 !! dir with
            | Some d =>
                match children d with
                | [] =>
                    (returned (res_json 500
                       (failure "Download failed: No file was downloaded")),
                     {| tmp := t1; spawned := log |})
                | file0 :: _ =>
                    (returned (res_download
                                 (path_join (path_join os_tmpdir dir) file0) file0),
                     {| tmp := delete dir t1; spawned := log |})
                end
            | None =>
                (returned (res_json 500
                   (failure ("Download failed: " +:+ enoent "scandir" dir))),
                 {| tmp := t1; spawned := log |})
            end
        | Some (rejected m) =>
            (returned (res_json 500 (failure ("Download failed: " +:+ m))),
             {| tmp := t1; spawned := log |})
        | None => (pending, {| tmp := t1; spawned := log |})
        end
    end.
Proof.
  unfold download, try_catch, bind, mkdtempSync, runYtDlp, readdirSync_in,
    tmp_after_child.
  destruct (negb (truthy (q_url q)) || negb (truthy (q_format_id q)) ||
            negb (isValidYouTubeUrl isURL (str (q_url q)))); [reflexivity|].
  cbv zeta. destruct (tmp w !! ("dl-" +:+ suffix)); [reflexivity|].
  destruct (promise (runYtDlp_callbacks (events c))) as [[v|m]|];
    try reflexivity.
  cbn [tmp spawned].
  destruct (writes c _ !! ("dl-" +:+ suffix)) as [d|]; [|reflexivity].
  destruct (children d); reflexivity.
Qed.

(** X18: a request spawns at most one child, whatever happens: neither
    handler retries. *)
Theorem handlers_spawn_at_most_one
    (isURL : string -> isURL_options -> bool) (JSON_parse : string -> info + string)
    (os_tmpdir : string) (q : query) (suffix : string) (now : Z) (c : child)
    (w : world) :
  (spawned (snd (inspect isURL JSON_parse q c w)) = spawned w \/
   spawned (snd (inspect isURL JSON_parse q c w)) =
     (spawned w ++ [{| argv := ["-J"; str (q_url q)];
                       final := runYtDlp_callbacks (events c) |}])%list) /\
  (spawned (snd (download isURL os_tmpdir q suffix now c w)) = spawned w \/
   spawned (snd (download isURL os_tmpdir q suffix now c w)) =
     (spawned w ++ [{| argv := download_args os_tmpdir q suffix;
                       final := runYtDlp_callbacks (events c) |}])%list).
Proof.
  rewrite inspect_cases, download_cases. split.
  - destruct (_ || _); [left; reflexivity|]. cbv zeta.
    destruct (promise _) as [[v|m]|]; try (right; reflexivity).
    destruct (JSON_parse v); right; reflexivity.
  - destruct (_ || _); [left; reflexivity|]. cbv zeta.
    destruct (tmp w !! _); [left; reflexivity|].
    destruct (promise _) as [[v|m]|]; try (right; reflexivity).
    destruct (_ !! _) as [d|]; [|right; reflexivity].
    destruct (children d); right; reflexivity.
Qed.

(** X19: once the events of the child hold a ['close'] or a due timer,
    both handlers answer, and no error escapes them: inspect answers with
    status 200, 400 or 500, download with a file or with status 400 or
    500. *)
Theorem handlers_answer
    (isURL : string -> isURL_options -> bool) (JSON_parse : string -> info + string)
    (os_tmpdir : string) (q : query) (suffix : string) (now : Z) (c : child)
    (w : world) :
  settles (events c) = true ->
  (exists status b w',
     inspect isURL JSON_parse q c w = (returned (res_json status b), w') /\
     In status [200; 400; 500]) /\
  (exists r w',
     download isURL os_tmpdir q suffix now c w = (returned r, w') /\
     match r with
     | res_json status _ => In status [400; 500]
     | res_download _ _ => True
     end).
Proof.
  intros Hs. apply settles_promise in Hs as [s Hs].
  rewrite inspect_cases, download_cases, Hs. split.
  - destruct (_ || _); [do 3 eexists; split; [reflexivity|simpl; auto]|].
    cbv zeta. destruct s as [v|m].
    + destruct (JSON_parse v); do 3 eexists; (split; [reflexivity|simpl; auto]).
    + do 3 eexists; split; [reflexivity|simpl; auto].
  - destruct (_ || _); [do 2 eexists; split; [reflexivity|simpl; auto]|].
    cbv zeta. destruct (tmp w !! _);
      [do 2 eexists; split; [reflexivity|simpl; auto]|].
    destruct s as [v|m].
    + destruct (_ !! _) as [d|];
        [|do 2 eexists; split; [reflexivity|simpl; auto]].
      destruct (children d); do 2 eexists; (split; [reflexivity|simpl; auto]).
    + do 2 eexists; split; [reflexivity|simpl; auto].
Qed.

Lemma handlers_answer_witness :
  (exists status b w',
     inspect isURL_sample JSON_parse_sample sample_query stuck_child empty_world =
       (returned (res_json status b), w') /\
     In status [200; 400; 500]) /\
  (exists r w',
     download isURL_sample "/tmp" sample_query "x7Kq2a" 0 stuck_child empty_world =
       (returned r, w') /\
     match r with
     | res_json status _ => In status [400; 500]
     | res_download _ _ => True
     end).
Proof.
  apply (handlers_answer isURL_sample JSON_parse_sample "/tmp" sample_query
           "x7Kq2a" 0 stuck_child empty_world).
  reflexivity.
Defined.

(** X20: a directory that a failed download left behind is deleted by a
    sweep exactly when the clock then reads more than 30 minutes past the
    directory's modification time. *)
Theorem failed_download_swept_later
    (isURL : string -> isURL_options -> bool) (os_tmpdir : string)
    (q : query) (suffix : string) (now : Z) (c : child) (w : world) (m : string)
    (d : dirent) (Date_now : string -> Z) :
  url_accepted isURL q -> truthy (q_format_id q) = true ->
  tmp w !! ("dl-" +:+ suffix) = None ->
  promise (runYtDlp_callbacks (events c)) = Some (rejected m) ->
  tmp_after_child suffix now c w !! ("dl-" +:+ suffix) = Some d ->
  exists w',
    cleanupTempFiles Date_now (snd (download isURL os_tmpdir q suffix now c w)) =
      (returned tt, w') /\
    (MAX_FILE_AGE < Date_now ("dl-" +:+ suffix) - mtimeMs d ->
     tmp w' !! ("dl-" +:+ suffix) = None) /\
    (Date_now ("dl-" +:+ suffix) - mtimeMs d <= MAX_FILE_AGE ->
     tmp w' !! ("dl-" +:+ suffix) = Some d).
Proof.
  intros Hq Hf Hfresh Hp Hd.
  rewrite (download_rejected isURL os_tmpdir q suffix now c w m) by assumption.
  cbn [snd].
  match goal with |- context [cleanupTempFiles _ ?w0] =>
    destruct (cleanupTempFiles_lookup Date_now w0) as (w' & Hrun & _ & Hlook)
  end.
  exists w'. split; [exact Hrun|]. rewrite Hlook. cbn [tmp]. rewrite Hd.
  unfold after_sweep.
  assert (startsWith "dl-" ("dl-" +:+ suffix) = true) as ->.
  { apply startsWith_spec. eauto. }
  cbn [andb]. split; intros Hage.
  - apply Z.gtb_lt in Hage. rewrite Hage. reflexivity.
  - destruct (_ >? _) eqn:Hgt; [|reflexivity]. apply Z.gtb_lt in Hgt. lia.
Qed.

Lemma failed_download_swept_later_witness :
  exists w',
    cleanupTempFiles (fun _ => 1800001)
      (snd (download isURL_sample "/tmp" sample_query "x7Kq2a" 0 failing_child
              empty_world)) = (returned tt, w') /\
    (MAX_FILE_AGE < 1800001 - 0 -> tmp w' !! "dl-x7Kq2a" = None) /\
    (1800001 - 0 <= MAX_FILE_AGE ->
     tmp w' !! "dl-x7Kq2a" = Some {| mtimeMs := 0; children := [] |}).
Proof.
  apply (failed_download_swept_later isURL_sample "/tmp" sample_query "x7Kq2a" 0
           failing_child empty_world "ERROR: Video unavailable"
           {| mtimeMs := 0; children := [] |} (fun _ => 1800001)).
  - exists "https://youtu.be/abc". repeat split; [discriminate].
  - reflexivity.
  - reflexivity.
  - reflexivity.
  - vm_compute. reflexivity.
Defined.
